(** * react-three-gltf-viewer: scene framing, camera authority and
      animation playback

    A shallow embedding of the [Model], [NumericInput] and [ModelScene]
    components of the viewer (scene inspection on asset load and its
    once-per-asset guard, the camera pose kept in [sceneSettings.camera],
    the orbit and manual writers of that pose, the playback of animation
    clips, and the drag on a numeric field), followed by the properties of
    the design document that concern them and by further properties of the
    same code.

    Conventions of the embedding.
    - A JavaScript number is a real number ([R]): arithmetic is exact, and
      [Math.tan], [Math.sin], [Math.cos], [Math.PI], [Math.max] are [tan],
      [sin], [cos], [PI], [Rmax].  [Math.round x] is [floor (x + 1/2)].
    - A JavaScript array of numbers is a [list R]; the object that maps
      clip names to actions is a [gmap string _]; [null] is [None].
    - The objects of the rendering library (vectors, the bounding box, the
      orbit controls, the clip actions) are records whose operations follow
      the library's contract.  What the library does on its own initiative
      (moving the camera, dispatching a [change] event, the rotation that
      [lookAt] produces) is an input of the transition that observes it.
    - React state is explicit.  A handler is a state transformer; the
      commit that follows it runs every effect one of whose dependencies
      differs from the value recorded at the effect's previous run, the
      cleanup of the previous run first.  A handler and its commit form
      one transition.
    - Lights, materials, the environment map and the text shown by the
      numeric fields play no part in the properties below and are left
      out. *)

From Stdlib Require Import Reals Lra Lia ZArith List Bool.
From stdpp Require Import gmap strings.
Import ListNotations.

Open Scope R_scope.

(** ** Numbers *)

Module JsMath.

(** [Math.round]: the nearest integer, ties towards plus infinity. *)
Definition round (val : R) : R := IZR (Zfloor (val + / 2)).

(** [THREE.MathUtils.radToDeg] and [degToRad]. *)
Definition RAD2DEG : R := 180 / PI.
Definition DEG2RAD : R := PI / 180.
Definition radToDeg (radians : R) : R := radians * RAD2DEG.
Definition degToRad (degrees : R) : R := degrees * DEG2RAD.

(** The rounding used by [updateCamera]: [Math.round(val * 100) / 100]. *)
Definition round2 (val : R) : R := round (val * 100) / 100.

(** A value that carries at most two decimals. *)
Definition two_decimals (val : R) : Prop := exists k : Z, val = IZR k / 100.

(** Componentwise closeness of two arrays of numbers. *)
Fixpoint close_to (eps : R) (p q : list R) : Prop :=
  match p, q with
  | [], [] => True
  | a :: p', b :: q' => Rabs (a - b) <= eps /\ close_to eps p' q'
  | _, _ => False
  end.

End JsMath.

(** ** The rendering library's values *)

Module Three.

Record Vector3 := mkVector3 { x : R; y : R; z : R }.

Record Quaternion := mkQuaternion { qx : R; qy : R; qz : R; qw : R }.

Definition toArray (v : Vector3) : list R := [x v; y v; z v].

Definition add (a b : Vector3) : Vector3 :=
  mkVector3 (x a + x b) (y a + y b) (z a + z b).

Definition sub (a b : Vector3) : Vector3 :=
  mkVector3 (x a - x b) (y a - y b) (z a - z b).

(** [Vector3.applyQuaternion]: [v + 2 w (q x v) + 2 q x (q x v)] for the
    quaternion [(q, w)]. *)
Definition applyQuaternion (v : Vector3) (q : Quaternion) : Vector3 :=
  let tx := 2 * (qy q * z v - qz q * y v) in
  let ty := 2 * (qz q * x v - qx q * z v) in
  let tz := 2 * (qx q * y v - qy q * x v) in
  mkVector3 (x v + qw q * tx + qy q * tz - qz q * ty)
            (y v + qw q * ty + qz q * tx - qx q * tz)
            (z v + qw q * tz + qx q * ty - qy q * tx).

(** [Vector3.distanceTo]. *)
Definition distanceTo (a b : Vector3) : R :=
  let d := sub a b in sqrt (x d * x d + y d * y d + z d * z d).

(** [Box3]: an axis-aligned box given by its two corners.  A box is empty
    when a maximum lies below the corresponding minimum; [getSize] and
    [getCenter] of an empty box are the zero vector. *)
Record Box3 := mkBox3 { bmin : Vector3; bmax : Vector3 }.

Definition isEmpty (b : Box3) : bool :=
  (if Rlt_dec (x (bmax b)) (x (bmin b)) then true else false)
  || (if Rlt_dec (y (bmax b)) (y (bmin b)) then true else false)
  || (if Rlt_dec (z (bmax b)) (z (bmin b)) then true else false).

Definition getSize (b : Box3) : Vector3 :=
  if isEmpty b then mkVector3 0 0 0 else sub (bmax b) (bmin b).

Definition getCenter (b : Box3) : Vector3 :=
  if isEmpty b then mkVector3 0 0 0
  else mkVector3 ((x (bmin b) + x (bmax b)) * 0.5)
                 ((y (bmin b) + y (bmax b)) * 0.5)
                 ((z (bmin b) + z (bmax b)) * 0.5).

(** The box with centre [c] and half-extents [s]. *)
Definition boxAround (c s : Vector3) : Box3 := mkBox3 (sub c s) (add c s).

(** An animation clip, and the action that plays it.  [scheduled] records
    that the action is active in its mixer. *)
Record AnimationClip := mkClip { name : string; duration : R }.

Inductive LoopMode := LoopOnce | LoopRepeat | LoopPingPong.

Record AnimationAction := mkAction {
  clip : AnimationClip;
  time : R;
  paused : bool;
  enabled : bool;
  scheduled : bool;
  loop : LoopMode
}.

Definition getClip (a : AnimationAction) : AnimationClip := clip a.

(** [action.play()] activates the action in the mixer. *)
Definition play (a : AnimationAction) : AnimationAction :=
  mkAction (clip a) (time a) (paused a) (enabled a) true (loop a).

(** [action.reset()]: unpaused, enabled, time zero. *)
Definition reset (a : AnimationAction) : AnimationAction :=
  mkAction (clip a) 0 false true (scheduled a) (loop a).

(** [action.stop()] deactivates the action and resets it. *)
Definition stop (a : AnimationAction) : AnimationAction :=
  reset (mkAction (clip a) (time a) (paused a) (enabled a) false (loop a)).

Definition setPaused (b : bool) (a : AnimationAction) : AnimationAction :=
  mkAction (clip a) (time a) b (enabled a) (scheduled a) (loop a).

Definition setTime (t : R) (a : AnimationAction) : AnimationAction :=
  mkAction (clip a) t (paused a) (enabled a) (scheduled a) (loop a).

Definition setLoop (m : LoopMode) (a : AnimationAction) : AnimationAction :=
  mkAction (clip a) (time a) (paused a) (enabled a) (scheduled a) m.

(** [action.isRunning()].  The viewer never changes [timeScale] and never
    schedules a start time, so these two conditions are left out. *)
Definition isRunning (a : AnimationAction) : bool :=
  enabled a && negb (paused a) && scheduled a.

(** A freshly created action for a clip (what the lazily created entry of
    [actions] holds before anything touched it). *)
Definition clipAction (c : AnimationClip) : AnimationAction :=
  mkAction c 0 false true false LoopRepeat.

End Three.

(** ** Scene inspection on asset load ([Model], first effects) *)

Module SceneInspector.
Import Three.

(** A camera node of the asset, read through [getWorldPosition] and
    [getWorldQuaternion] after [updateMatrixWorld]. *)
Record CameraNode := mkCameraNode {
  worldPosition : Vector3;
  worldQuaternion : Quaternion;
  node_fov : R;
  node_near : R;
  node_far : R;
  node_zoom : R
}.

(** The loaded asset: its cameras, its clips, and the bounding box that
    [new Box3().setFromObject(gltf.scene)] computes. *)
Record GLTF := mkGLTF {
  cameras : list CameraNode;
  animations : list AnimationClip;
  sceneBox : Box3
}.

(** [sceneSettings.camera] as the effect builds it.  The framing branch
    leaves [near], [far] and [zoom] out of the object. *)
Record CameraSettings := mkCameraSettings {
  position : list R;
  target : list R;
  fov : R;
  near : option R;
  far : option R;
  zoom : option R
}.

Record SceneSettings := mkSceneSettings {
  camera : CameraSettings;
  animationNames : list string
}.

(** [anim.name || placeholder]: the empty string is falsy. *)
Definition orElse (s placeholder : string) : string :=
  if decide (s = EmptyString) then placeholder else s.

Definition clipNames (g : GLTF) : list string :=
  map (fun anim => orElse (name anim) "未命名动画") (animations g).

(** The branch taken when [gltf.cameras?.[0]] is present. *)
Definition authoredCamera (cam : CameraNode) : CameraSettings :=
  let position := worldPosition cam in
  let quaternion := worldQuaternion cam in
  let direction := applyQuaternion (mkVector3 0 0 (-1)) quaternion in
  let target := add position direction in
  mkCameraSettings (toArray position) (toArray target)
    (node_fov cam) (Some (node_near cam)) (Some (node_far cam))
    (Some (node_zoom cam)).

(** The branch taken when no camera was found: frame the bounding box. *)
Definition maxDim (box : Box3) : R :=
  let size := getSize box in Rmax (Rmax (x size) (y size)) (z size).

Definition defaultFov : R := 50.

Definition cameraDistance (box : Box3) : R :=
  maxDim box / (2 * tan ((defaultFov * PI) / 360)).

Definition distance (box : Box3) : R := cameraDistance box * 1.2.

Definition verticalAngle : R := PI / 6.
Definition horizontalAngle : R := (PI * 3) / 4.

Definition framedCamera (box : Box3) : CameraSettings :=
  let height := distance box * sin verticalAngle in
  let radius := distance box * cos verticalAngle in
  mkCameraSettings
    [radius * cos horizontalAngle; height; radius * sin horizontalAngle]
    [0; 0; 0] defaultFov None None None.

(** The load effect: the settings handed to [onLoad], and the new position
    of the scene root when the framing branch recentres it. *)
Definition inspect (g : GLTF) : SceneSettings * option Vector3 :=
  match cameras g with
  | cam :: _ => (mkSceneSettings (authoredCamera cam) (clipNames g), None)
  | [] =>
      let center := getCenter (sceneBox g) in
      (mkSceneSettings (framedCamera (sceneBox g)) (clipNames g),
       Some (mkVector3 (- x center) (- y center) (- z center)))
  end.

End SceneInspector.

(** ** Animation playback ([Model] and the playback state of [ModelScene]) *)

Module Playback.
Import Three.

(** The value of the parent's [isPlaying] state: one of the strings
    ['playing'], ['paused'], ['stopped'], or whatever [onPlayingChange]
    was called with. *)
Inductive PlayingValue :=
| PStr (s : string)
| PBool (b : bool).

#[global] Instance PlayingValue_eq_dec : EqDecision PlayingValue.
Proof. solve_decision. Defined.

(** The dependencies of the animation-state effect: the identity of
    [actions], [currentAnimation], [isPlaying], [isInitialized]. *)
Definition AnimDeps : Type := nat * option string * PlayingValue * bool.

Record State := mkState {
  currentAnimation : option string;
  isPlaying : PlayingValue;
  progress : R;
  animations : list AnimationClip;
  actions : gmap string AnimationAction;
  actionsId : nat;
  isInitialized : bool;
  animDeps : option AnimDeps
}.

Definition withActions (m : gmap string AnimationAction) (s : State) : State :=
  mkState (currentAnimation s) (isPlaying s) (progress s) (animations s)
          m (actionsId s) (isInitialized s) (animDeps s).

(** [useAnimations(gltf.animations, modelRef)]: one action per clip name. *)
Definition useAnimations (clips : list AnimationClip) : gmap string AnimationAction :=
  list_to_map (map (fun c => (name c, clipAction c)) clips).

(** [currentAnimation && actions[currentAnimation]]. *)
Definition resolve (s : State) : option AnimationAction :=
  match currentAnimation s with
  | Some n => if decide (n = EmptyString) then None else actions s !! n
  | None => None
  end.

(** The clip the seeding effect would select at this render, if its guard
    [gltf.animations.length > 0 && actions && !isInitialized] holds. *)
Definition firstAnimation (s : State) : option string :=
  match animations s with
  | first :: _ =>
      if isInitialized s then None
      else Some (if decide (name first = EmptyString) then "0" else name first)
  | [] => None
  end.

(** [action.reset().play(); action.setLoop(THREE.LoopRepeat)] on
    [actions[firstAnimation]], when that entry exists. *)
Definition playFirst (n : string) (s : State) : State :=
  match actions s !! n with
  | Some action => withActions (<[n := setLoop LoopRepeat (play (reset action))]> (actions s)) s
  | None => s
  end.

Definition depsOf (s : State) : AnimDeps :=
  (actionsId s, currentAnimation s, isPlaying s, isInitialized s).

(** The body of the animation-state effect. *)
Definition applyStatus (s : State) : State :=
  if negb (isInitialized s) then s
  else match currentAnimation s, resolve s with
       | Some n, Some action =>
           if decide (isPlaying s = PStr "playing") then
             withActions (<[n := play (setPaused false action)]> (actions s)) s
           else if decide (isPlaying s = PStr "paused") then
             withActions (<[n := setPaused true action]> (actions s)) s
           else if decide (isPlaying s = PStr "stopped") then
             withActions (<[n := reset (stop action)]> (actions s)) s
           else s
       | _, _ => s
       end.

(** The animation-state effect: its body runs when a dependency changed
    since its previous run. *)
Definition animationEffect (s : State) : State :=
  if decide (animDeps s = Some (depsOf s)) then s
  else let s' := applyStatus s in
       mkState (currentAnimation s') (isPlaying s') (progress s') (animations s')
               (actions s') (actionsId s') (isInitialized s') (Some (depsOf s)).

(** One render and its effects.  Both effects see the props and state of
    this render; the updates queued by the seeding effect
    ([onAnimationChange(firstAnimation)], [onPlayingChange(true)],
    [setIsInitialized(true)]) take effect afterwards. *)
Definition renderPass (s : State) : State :=
  match firstAnimation s with
  | Some n =>
      let s' := animationEffect (playFirst n s) in
      mkState (Some n) (PBool true) (progress s') (animations s')
              (actions s') (actionsId s') true (animDeps s')
  | None => animationEffect s
  end.

(** Rendering until no update is pending: the seeding effect queues
    updates at most once, so two passes reach the fixed point. *)
Definition commit (s : State) : State := renderPass (renderPass s).

(** The playback state of a fresh [ModelScene]. *)
Definition initialParent : State :=
  mkState None (PStr "playing") 0 [] ∅ 0 false None.

(** [Model] mounts with an asset: fresh component state. *)
Definition mountModel (clips : list AnimationClip) (s : State) : State :=
  commit (mkState (currentAnimation s) (isPlaying s) (progress s) clips
                  (useAnimations clips) (S (actionsId s)) false None).

(** [modelUrl] changes while [Model] stays mounted: a new asset and new
    actions, the component state is kept. *)
Definition replaceAsset (clips : list AnimationClip) (s : State) : State :=
  commit (mkState (currentAnimation s) (isPlaying s) (progress s) clips
                  (useAnimations clips) (S (actionsId s)) (isInitialized s)
                  (animDeps s)).

(** The [onChange] of the clip selector. *)
Definition selectClip (value : string) (s : State) : State :=
  commit (mkState (Some value)
                  (if decide (value = EmptyString) then PStr "stopped" else PStr "playing")
                  (progress s) (animations s) (actions s) (actionsId s)
                  (isInitialized s) (animDeps s)).

(** The Play / Pause / Stop buttons. *)
Definition setIsPlaying (v : string) (s : State) : State :=
  commit (mkState (currentAnimation s) (PStr v) (progress s) (animations s)
                  (actions s) (actionsId s) (isInitialized s) (animDeps s)).

(** [handleProgress], exposed through the imperative handle. *)
Definition handleProgress (p : R) (s : State) : State :=
  match currentAnimation s, resolve s with
  | Some n, Some action =>
      let duration := duration (getClip action) in
      let action1 := setTime (duration * p) action in
      let action2 := if paused action1 then setPaused true (play action1) else action1 in
      withActions (<[n := action2]> (actions s)) s
  | _, _ => s
  end.

(** [handleProgressChange] of the parent, followed by the commit of the
    render that [setProgress] causes. *)
Definition handleProgressChange (value : R) (s : State) : State :=
  let s' := handleProgress value s in
  commit (mkState (currentAnimation s') (isPlaying s') value (animations s')
                  (actions s') (actionsId s') (isInitialized s') (animDeps s')).

(** [getDuration], exposed through the imperative handle. *)
Definition getDuration (s : State) : R :=
  match resolve s with
  | Some action => duration (getClip action)
  | None => 0
  end.

(** A state in which no effect is pending: the animation-state effect ran
    with the current dependencies and the seeding effect has nothing to
    do. *)
Definition committed (s : State) : Prop :=
  animDeps s = Some (depsOf s) /\ firstAnimation s = None.


End Playback.

(** ** The camera pose and its two writers ([ModelScene]) *)

Module CameraAuthority.
Import Three JsMath.

(** [sceneSettings.camera]. *)
Record Camera := mkCamera {
  position : list R;
  rotation : list R;
  zoom : R;
  target : list R;
  fov : R;
  near : R;
  far : R
}.

Record SceneSettings := mkSceneSettings { camera : Camera }.

(** The argument of [updateCamera]: an object holding some of the keys
    [position], [rotation], [target]. *)
Record CameraUpdates := mkUpdates {
  u_position : option (list R);
  u_rotation : option (list R);
  u_target : option (list R)
}.

Definition positionUpdate (v : list R) : CameraUpdates := mkUpdates (Some v) None None.
Definition rotationUpdate (v : list R) : CameraUpdates := mkUpdates None (Some v) None.
Definition targetUpdate (v : list R) : CameraUpdates := mkUpdates None None (Some v).

(** [{ ...prev.camera, ...processedUpdates }]. *)
Definition spread (prev : Camera) (u : CameraUpdates) : Camera :=
  mkCamera (default (position prev) (u_position u))
           (default (rotation prev) (u_rotation u))
           (zoom prev)
           (default (target prev) (u_target u))
           (fov prev) (near prev) (far prev).

(** The state update that [updateCamera(updates)] queues. *)
Definition updateCamera (updates : CameraUpdates) (prev : SceneSettings) : SceneSettings :=
  let processedUpdates :=
    mkUpdates (option_map (map round2) (u_position updates))
              (option_map (map round2) (u_rotation updates))
              (u_target updates) in
  mkSceneSettings (spread (camera prev) processedUpdates).

(** The state update of [handleModelLoad]:
    [{ ...sceneSettings.camera, ...settings.camera }], where
    [sceneSettings] is the value captured by the closure that was passed
    as [onLoad]. *)
Definition mergeLoaded (prev : SceneSettings) (c : SceneInspector.CameraSettings) : SceneSettings :=
  mkSceneSettings
    (mkCamera (SceneInspector.position c) (rotation (camera prev))
              (default (zoom (camera prev)) (SceneInspector.zoom c))
              (SceneInspector.target c) (SceneInspector.fov c)
              (default (near (camera prev)) (SceneInspector.near c))
              (default (far (camera prev)) (SceneInspector.far c))).

(** The live camera object behind [cameraRef]: position and Euler
    rotation in radians.  [cam_id] stands for the identity of the object. *)
Record PerspectiveCamera := mkPerspectiveCamera {
  cam_id : nat;
  cam_position : Vector3;
  cam_rotation : Vector3
}.

(** The controls object behind [controlsRef].  [listeners] holds the
    [handleChange] closures registered for the [change] event, each
    represented by the value of [orbitControlsEnabled] it captured. *)
Record OrbitControls := mkOrbitControls {
  ctl_id : nat;
  enabled : bool;
  enablePan : bool;
  enableZoom : bool;
  enableRotate : bool;
  ctl_target : Vector3;
  listeners : list bool
}.

(** What the renderer and the controls make of the live objects. *)
Record LivePose := mkLivePose {
  live_position : Vector3;
  live_rotation : Vector3;
  live_target : Vector3
}.

(** Dependencies of the orbit-controls effect:
    [controlsRef.current], [orbitControlsEnabled], [config.kiosk]. *)
Definition EffectDeps : Type := option nat * bool * bool.

(** Dependencies of the camera-synchronisation effect:
    [cameraRef.current], [controlsRef.current]. *)
Definition SyncDeps : Type := option nat * option nat.

Record State := mkState {
  sceneSettings : SceneSettings;
  orbitControlsEnabled : bool;
  kiosk : bool;
  cameraRef : option PerspectiveCamera;
  controlsRef : option OrbitControls;
  effectDeps : option EffectDeps;
  effectCleanup : option bool;
  syncDeps : option SyncDeps
}.

(** The initial state of [ModelScene]. *)
Definition initialState : State :=
  mkState (mkSceneSettings (mkCamera [-3.5; 3; 3.5] [0; 0; 0] 1 [0; 0; 0] 50 0.1 1000))
          true false None None None None None.

Definition withSettings (f : SceneSettings -> SceneSettings) (s : State) : State :=
  mkState (f (sceneSettings s)) (orbitControlsEnabled s) (kiosk s)
          (cameraRef s) (controlsRef s) (effectDeps s) (effectCleanup s)
          (syncDeps s).

Definition setOrbitControlsEnabled (b : bool) (s : State) : State :=
  mkState (sceneSettings s) b (kiosk s)
          (cameraRef s) (controlsRef s) (effectDeps s) (effectCleanup s)
          (syncDeps s).

Definition withCamera (f : PerspectiveCamera -> PerspectiveCamera) (s : State) : State :=
  mkState (sceneSettings s) (orbitControlsEnabled s) (kiosk s)
          (option_map f (cameraRef s)) (controlsRef s) (effectDeps s)
          (effectCleanup s) (syncDeps s).

Definition withControls (f : OrbitControls -> OrbitControls) (s : State) : State :=
  mkState (sceneSettings s) (orbitControlsEnabled s) (kiosk s)
          (cameraRef s) (option_map f (controlsRef s)) (effectDeps s)
          (effectCleanup s) (syncDeps s).

Definition setEffect (deps : option EffectDeps) (cleanup : option bool) (s : State) : State :=
  mkState (sceneSettings s) (orbitControlsEnabled s) (kiosk s)
          (cameraRef s) (controlsRef s) deps cleanup (syncDeps s).

Definition setSyncDeps (deps : option SyncDeps) (s : State) : State :=
  mkState (sceneSettings s) (orbitControlsEnabled s) (kiosk s)
          (cameraRef s) (controlsRef s) (effectDeps s) (effectCleanup s) deps.

(** [camera.position.set(...)] and [camera.rotation.set(...)]. *)
Definition setPosition (v : Vector3) (cam : PerspectiveCamera) : PerspectiveCamera :=
  mkPerspectiveCamera (cam_id cam) v (cam_rotation cam).

Definition setRotation (r : Vector3) (cam : PerspectiveCamera) : PerspectiveCamera :=
  mkPerspectiveCamera (cam_id cam) (cam_position cam) r.

Definition setTarget (t : Vector3) (c : OrbitControls) : OrbitControls :=
  mkOrbitControls (ctl_id c) (enabled c) (enablePan c) (enableZoom c)
                  (enableRotate c) t (listeners c).

Definition setFlags (en pan zm rot : bool) (c : OrbitControls) : OrbitControls :=
  mkOrbitControls (ctl_id c) en pan zm rot (ctl_target c) (listeners c).

Definition setListeners (l : list bool) (c : OrbitControls) : OrbitControls :=
  mkOrbitControls (ctl_id c) (enabled c) (enablePan c) (enableZoom c)
                  (enableRotate c) (ctl_target c) l.

(** [removeEventListener]: drops the registered closure. *)
Fixpoint removeListener (b : bool) (l : list bool) : list bool :=
  match l with
  | [] => []
  | b' :: l' => if Bool.eqb b b' then l' else b' :: removeListener b l'
  end.

(** The renderer or the controls move the live objects. *)
Definition setLive (p : LivePose) (s : State) : State :=
  withControls (setTarget (live_target p))
    (withCamera (fun cam => setRotation (live_rotation p) (setPosition (live_position p) cam)) s).

Definition vector3Of (v : list R) : Vector3 :=
  mkVector3 (nth 0 v 0) (nth 1 v 0) (nth 2 v 0).

(** The pose that [handleChange] and the synchronisation effect read from
    the live objects: position and target as they are, the rotation
    converted to degrees. *)
Definition mirrorLive (cam : PerspectiveCamera) (controls : OrbitControls)
    (prev : SceneSettings) : SceneSettings :=
  let position := cam_position cam in
  let rotation := cam_rotation cam in
  let target := ctl_target controls in
  let rotationDeg :=
    [radToDeg (x rotation); radToDeg (y rotation); radToDeg (z rotation)] in
  mkSceneSettings
    (mkCamera (toArray position) rotationDeg (zoom (camera prev))
              (toArray target) (fov (camera prev))
              (near (camera prev)) (far (camera prev))).

(** [handleChange], the listener of the controls' [change] event;
    [captured] is the [orbitControlsEnabled] of the render that created
    the closure. *)
Definition handleChange (captured : bool) (s : State) : State :=
  match cameraRef s, controlsRef s with
  | Some cam, Some controls =>
      if negb captured then s
      else withSettings (mirrorLive cam controls) s
  | _, _ => s
  end.

(** The controls dispatch [change]: every registered listener runs. *)
Definition dispatchChange (s : State) : State :=
  match controlsRef s with
  | Some controls => fold_left (fun st captured => handleChange captured st) (listeners controls) s
  | None => s
  end.

(** Whether a [change] event makes some listener queue a state update. *)
Definition changeQueuesUpdate (s : State) : bool :=
  match cameraRef s, controlsRef s with
  | Some _, Some controls => existsb (fun captured => captured) (listeners controls)
  | _, _ => false
  end.

(** [handlePositionChange]. *)
Definition handlePositionChange (positionValues : list R) (s : State) : State :=
  let s1 := setOrbitControlsEnabled false s in
  let s2 := withSettings (updateCamera (positionUpdate positionValues)) s1 in
  withCamera (setPosition (vector3Of positionValues)) s2.

(** [handleCameraRotation]. *)
Definition handleCameraRotation (rotationValues : list R) (s : State) : State :=
  let s1 := setOrbitControlsEnabled false s in
  let s2 := withSettings (updateCamera (rotationUpdate rotationValues)) s1 in
  withCamera (fun cam =>
    let currentPosition := cam_position cam in
    setPosition currentPosition
      (setRotation (mkVector3 (degToRad (nth 0 rotationValues 0))
                              (degToRad (nth 1 rotationValues 0))
                              (degToRad (nth 2 rotationValues 0))) cam)) s2.

(** [handleTargetChange].  Its last statement is [controls.update()];
    [moved] is what that call does: [None] when it leaves the camera
    where it is, [Some p] when it moves the live objects to [p] and
    dispatches [change]. *)
Definition handleTargetChange (targetValues : list R) (moved : option LivePose)
    (s : State) : State :=
  let s1 := setOrbitControlsEnabled false s in
  let s2 := withSettings (updateCamera (targetUpdate targetValues)) s1 in
  match controlsRef s2 with
  | Some _ =>
      let s3 := withControls (setTarget (vector3Of targetValues)) s2 in
      match moved with
      | Some p => dispatchChange (setLive p s3)
      | None => s3
      end
  | None => s2
  end.

(** [toggleOrbitControls]. *)
Definition toggleOrbitControls (s : State) : State :=
  setOrbitControlsEnabled (negb (orbitControlsEnabled s)) s.

(** [resetCameraToViewTarget]; [lookAtRotation] is the Euler rotation of
    the camera after [camera.lookAt(target)]. *)
Definition resetCameraToViewTarget (lookAtRotation : Vector3) (s : State) : State :=
  match cameraRef s, controlsRef s with
  | Some cam, Some controls =>
      let target := ctl_target controls in
      let currentDistance := distanceTo (cam_position cam) target in
      let distance := if Rlt_dec 0 currentDistance then currentDistance else 10 in
      let defaultRotation := [0; 0; 0] in
      let position :=
        [round ((x target + 0) * 100) / 100;
         round ((y target + distance * 0.5) * 100) / 100;
         round ((z target + distance) * 100) / 100] in
      let s1 :=
        withSettings (updateCamera (mkUpdates (Some position) (Some defaultRotation) None)) s in
      let s2 :=
        withCamera (fun c => setRotation lookAtRotation (setPosition (vector3Of position) c)) s1 in
      let rotation := lookAtRotation in
      let rotationDeg :=
        [radToDeg (x rotation); radToDeg (y rotation); radToDeg (z rotation)] in
      let s3 := withSettings (updateCamera (rotationUpdate rotationDeg)) s2 in
      setOrbitControlsEnabled true s3
  | _, _ => s
  end.

Definition setKiosk (b : bool) (s : State) : State :=
  mkState (sceneSettings s) (orbitControlsEnabled s) b
          (cameraRef s) (controlsRef s) (effectDeps s) (effectCleanup s)
          (syncDeps s).

Definition depsOf (s : State) : EffectDeps :=
  (option_map ctl_id (controlsRef s), orbitControlsEnabled s, kiosk s).

(** The cleanup returned by the previous run of the orbit-controls
    effect. *)
Definition runCleanup (s : State) : State :=
  match effectCleanup s with
  | Some captured =>
      setEffect (effectDeps s) None
        (withControls (fun c => setListeners (removeListener captured (listeners c)) c) s)
  | None => s
  end.

(** The body of the orbit-controls effect.  Its calls of
    [controls.update()] happen while no listener of this component is
    registered. *)
Definition effectBody (s : State) : State :=
  match controlsRef s with
  | None => s
  | Some _ =>
      if negb (orbitControlsEnabled s) then
        withControls (setFlags false false false false) s
      else
        let s1 := withControls (setFlags true true true (true && negb (kiosk s))) s in
        let s2 :=
          withControls (fun c => setListeners (listeners c ++ [orbitControlsEnabled s]) c) s1 in
        setEffect (effectDeps s2) (Some (orbitControlsEnabled s)) s2
  end.

(** The orbit-controls effect at a commit: skipped when its dependencies
    are those of its previous run; otherwise the previous cleanup runs,
    then the body. *)
Definition orbitControlsEffect (s : State) : State :=
  if decide (effectDeps s = Some (depsOf s)) then s
  else
    let s1 := effectBody (runCleanup s) in
    setEffect (Some (depsOf s)) (effectCleanup s1) s1.

Definition syncDepsOf (s : State) : SyncDeps :=
  (option_map cam_id (cameraRef s), option_map ctl_id (controlsRef s)).

(** The camera-synchronisation effect at a commit: when one of the refs
    changed and both are set, the live pose is copied into
    [sceneSettings.camera]. *)
Definition syncEffect (s : State) : State :=
  if decide (syncDeps s = Some (syncDepsOf s)) then s
  else
    match cameraRef s, controlsRef s with
    | Some cam, Some controls =>
        setSyncDeps (Some (syncDepsOf s)) (withSettings (mirrorLive cam controls) s)
    | _, _ => setSyncDeps (Some (syncDepsOf s)) s
    end.

(** The commit that follows a render: the effects in the order of their
    declaration.  The render caused by the update that the
    synchronisation effect queues finds both effects up to date. *)
Definition commit (s : State) : State := syncEffect (orbitControlsEffect s).

(** The events of the component. *)
Inductive Event :=
| Mount (p : LivePose)
| Render
| Frame (p : LivePose)
| OrbitChange (p : LivePose)
| PositionEdit (v : list R)
| RotationEdit (v : list R)
| TargetEdit (v : list R) (moved : option LivePose)
| ToggleOrbit
| ResetCamera (lookAtRotation : Vector3)
| SetKiosk (b : bool)
| ModelLoad (captured : SceneSettings) (c : SceneInspector.CameraSettings).

(** The identity of the next pair of live objects. *)
Definition freshId (s : State) : nat :=
  match controlsRef s with
  | Some c => S (ctl_id c)
  | None => O
  end.

(** The canvas mounts: the refs receive new objects; the controls get
    their flags from the props of [<OrbitControls>], and nothing listens
    to them yet. *)
Definition mount (p : LivePose) (s : State) : State :=
  mkState (sceneSettings s) (orbitControlsEnabled s) (kiosk s)
          (Some (mkPerspectiveCamera (freshId s) (live_position p) (live_rotation p)))
          (Some (mkOrbitControls (freshId s) true
                   (orbitControlsEnabled s) (orbitControlsEnabled s)
                   (orbitControlsEnabled s && negb (kiosk s)) (live_target p) []))
          (effectDeps s) (effectCleanup s) (syncDeps s).

(** One event.  [Mount] and [Frame] happen outside React.  A [change]
    event is followed by a render only when a listener queued an update;
    every other event queues one. *)
Definition step (e : Event) (s : State) : State :=
  match e with
  | Mount p => mount p s
  | Render => commit s
  | Frame p => setLive p s
  | OrbitChange p =>
      if changeQueuesUpdate (setLive p s)
      then commit (dispatchChange (setLive p s))
      else setLive p s
  | PositionEdit v => commit (handlePositionChange v s)
  | RotationEdit v => commit (handleCameraRotation v s)
  | TargetEdit v moved => commit (handleTargetChange v moved s)
  | ToggleOrbit => commit (toggleOrbitControls s)
  | ResetCamera r => commit (resetCameraToViewTarget r s)
  | SetKiosk b => commit (setKiosk b s)
  | ModelLoad captured c => commit (withSettings (fun _ => mergeLoaded captured c) s)
  end.

Definition run (trace : list Event) (s : State) : State :=
  fold_left (fun st e => step e st) trace s.

(** States the component can be in. *)
Inductive reachable : State -> Prop :=
| reachable_initial : reachable initialState
| reachable_step e s : reachable s -> reachable (step e s).



(** The part of the state that decides who listens to the controls. *)
Definition wiringOf (s : State) :=
  (orbitControlsEnabled s, kiosk s, controlsRef s, effectDeps s, effectCleanup s).

(** The part of an event that precedes its commit. *)
Definition handlerOf (e : Event) (s : State) : State :=
  match e with
  | Mount p => s
  | Render => s
  | Frame p => setLive p s
  | OrbitChange p => dispatchChange (setLive p s)
  | PositionEdit v => handlePositionChange v s
  | RotationEdit v => handleCameraRotation v s
  | TargetEdit v moved => handleTargetChange v moved s
  | ToggleOrbit => toggleOrbitControls s
  | ResetCamera r => resetCameraToViewTarget r s
  | SetKiosk b => setKiosk b s
  | ModelLoad captured c => withSettings (fun _ => mergeLoaded captured c) s
  end.

(** The listeners registered on the controls are those the last run of
    the effect registered, and the effect registers a listener only when
    [orbitControlsEnabled] holds. *)
Definition listenersOk (s : State) : Prop :=
  (forall c, controlsRef s = Some c ->
     listeners c = [] \/ (listeners c = [true] /\ effectCleanup s = Some true))
  /\ (forall b, effectCleanup s = Some b ->
      b = true /\ exists id k, effectDeps s = Some (id, true, k)).

(** The effect never ran for a controls object newer than the mounted
    one. *)
Definition depsNotAhead (s : State) : Prop :=
  forall i e k, effectDeps s = Some (Some i, e, k) ->
    exists c, controlsRef s = Some c /\ (i <= ctl_id c)%nat.

(** Every change of [orbitControlsEnabled] or [config.kiosk] has been
    followed by a commit. *)
Definition depsInSync (s : State) : Prop :=
  forall i e k, effectDeps s = Some (i, e, k) ->
    e = orbitControlsEnabled s /\ k = kiosk s.

(** Manual authority: the orbit controls are switched off and no listener
    is registered on them. *)
Definition manual (s : State) : Prop :=
  orbitControlsEnabled s = false
  /\ forall c, controlsRef s = Some c -> listeners c = [].

(** The synchronisation effect has seen the current refs. *)
Definition synced (s : State) : Prop := syncDeps s = Some (syncDepsOf s).

(** The controls, when mounted, have every interaction switched off. *)
Definition interactionOff (s : State) : Prop :=
  forall c, controlsRef s = Some c ->
    enabled c = false /\ enablePan c = false
    /\ enableZoom c = false /\ enableRotate c = false.

(** The invariant of the reachable states. *)
Definition invariant (s : State) : Prop :=
  listenersOk s /\ depsNotAhead s /\ depsInSync s
  /\ (orbitControlsEnabled s = false -> effectDeps s = Some (depsOf s) ->
      interactionOff s).

(** What a handler may do to the wiring between the component and the
    controls before the commit: nothing. *)
Definition sameWiring (s s1 : State) : Prop :=
  effectDeps s1 = effectDeps s
  /\ effectCleanup s1 = effectCleanup s
  /\ match controlsRef s, controlsRef s1 with
     | None, None => True
     | Some c, Some c1 =>
         ctl_id c1 = ctl_id c /\ listeners c1 = listeners c
         /\ enabled c1 = enabled c /\ enablePan c1 = enablePan c
         /\ enableZoom c1 = enableZoom c /\ enableRotate c1 = enableRotate c
     | _, _ => False
     end.

End CameraAuthority.

(** ** Assets and states used in the scenarios *)

Module Scenarios.
Import Three.

Definition origin : Vector3 := mkVector3 0 0 0.

(** Two clips of one asset, and the clips of two successive assets. *)
Definition clipA : AnimationClip := mkClip "A" 4.
Definition clipB : AnimationClip := mkClip "B" 2.
Definition walk : AnimationClip := mkClip "Walk" 1.
Definition jump : AnimationClip := mkClip "Jump" 2.

(** The asset with clips [A] and [B] is loaded, Play is pressed, and the
    progress slider is moved to the middle of clip [A]. *)
Definition playingA : Playback.State :=
  Playback.handleProgressChange 0.5
    (Playback.setIsPlaying "playing"
       (Playback.mountModel [clipA; clipB] Playback.initialParent)).

(** The same asset, paused before anything else happens. *)
Definition pausedA : Playback.State :=
  Playback.setIsPlaying "paused"
    (Playback.mountModel [clipA; clipB] Playback.initialParent).

(** The camera sits on the Z axis, eight units from the origin, and looks
    at it; the canvas is mounted, the effects have run, and the controls
    have reported this pose once. *)
Definition onAxis : CameraAuthority.LivePose :=
  CameraAuthority.mkLivePose (mkVector3 0 0 8) origin origin.

Definition orbiting : CameraAuthority.State :=
  CameraAuthority.run
    [CameraAuthority.Mount onAxis; CameraAuthority.Render;
     CameraAuthority.OrbitChange onAxis]
    CameraAuthority.initialState.

(** A drag that raises the camera: it now looks down by a tenth of a
    radian. *)
Definition raised : CameraAuthority.LivePose :=
  CameraAuthority.mkLivePose (mkVector3 0 0.8 7.96) (mkVector3 (-0.1) 0 0) origin.

(** The live objects after [controls.update()] re-aimed the camera, still on
    the Z axis, at the new target [(1, 0, 0)]. *)
Definition reaimed : CameraAuthority.LivePose :=
  CameraAuthority.mkLivePose (mkVector3 0 0 8) (mkVector3 0 (- atan (1 / 8)) 0)
                             (mkVector3 1 0 0).

End Scenarios.

(** ** Wheel scrubbing and the teardown of the actions ([ModelScene], [Model]) *)

Module PlaybackControls.
Import Three Playback.

(** [handleWheel] of [ModelScene]: with a clip selected, the wheel moves
    the progress by a hundredth, kept within [[0, 1]], and scrubs. *)
Definition handleWheel (deltaY : R) (s : State) : State :=
  match currentAnimation s with
  | Some n =>
      if decide (n = EmptyString) then s
      else
        let delta := if Rlt_dec 0 deltaY then -0.01 else 0.01 in
        let newProgress := Rmax 0 (Rmin 1 (progress s + delta)) in
        handleProgressChange newProgress s
  | None => s
  end.



End PlaybackControls.

(** ** The once-per-asset guard and the visibility of the model ([Model]) *)

Module ModelLoader.
Import SceneInspector.

(** [hasLoaded.current], [isVisible], and the [onLoad] calls handed to
    [requestAnimationFrame], oldest first. *)
Record State := mkState {
  hasLoaded : bool;
  isVisible : bool;
  onLoadCalls : list SceneSettings
}.

(** [Model] as it mounts. *)
Definition initial : State := mkState false false [].

(** The effect on [modelUrl]: [hasLoaded.current = false; setIsVisible(false)]. *)
Definition resetEffect (s : State) : State :=
  mkState false false (onLoadCalls s).

(** The body of the load effect behind its guard on [hasLoaded.current]:
    the asset is inspected and [onLoad] is scheduled with the result. *)
Definition loadEffect (g : GLTF) (s : State) : State :=
  if hasLoaded s then s
  else mkState true (isVisible s) (onLoadCalls s ++ [fst (inspect g)]).

(** What a render of [Model] sees: the asset [gltf], whether [modelUrl]
    differs from the one of the previous render, and whether [onLoad] does
    (the parent passes a new closure whenever it renders itself). *)
Record Render := mkRender {
  urlChanged : bool;
  onLoadChanged : bool;
  gltf : GLTF
}.

(** The commit of one render: the two effects in the order of their
    declaration, each when one of its dependencies changed. *)
Definition render (r : Render) (s : State) : State :=
  let s1 := if urlChanged r then resetEffect s else s in
  if urlChanged r || onLoadChanged r then loadEffect (gltf r) s1 else s1.

(** [Model] mounts: every effect runs. *)
Definition mount (g : GLTF) : State := render (mkRender true true g) initial.

(** The callback that [handleModelLoad] calls once the camera is placed:
    [setIsVisible(true)]. *)
Definition onComplete (s : State) : State :=
  mkState (hasLoaded s) true (onLoadCalls s).

(** A sequence of renders. *)
Definition renders (rs : list Render) (s : State) : State :=
  fold_left (fun st r => render r st) rs s.

End ModelLoader.

(** ** The numeric field ([NumericInput]) *)

Module NumericInput.

(** [dragStateRef.current].  [startValue] is only present in the object
    the ref starts with. *)
Record DragState := mkDragState {
  startX : R;
  startValue : option R;
  dragging : bool;
  lastX : R;
  currentValue : R
}.

(** One field: the props [value] and [step], the state, the ref, the
    number of listener pairs registered on [document], and the values
    passed to [onChange], oldest first.  [step] is a constant at every use
    of the field, so that the closures registered at a mouse-down see the
    current one.  The text of the field is left out. *)
Record State := mkState {
  value : R;
  step : R;
  isDragging : bool;
  isActive : bool;
  isFocused : bool;
  dragStateRef : DragState;
  listeners : nat;
  reported : list R
}.

(** The field as it mounts. *)
Definition mount (value step : R) : State :=
  mkState value step false false false
          (mkDragState 0 (Some 0) false 0 value) 0 [].

(** [handleMouseDown]. *)
Definition handleMouseDown (clientX : R) (s : State) : State :=
  mkState (value s) (step s) true true (isFocused s)
          (mkDragState clientX None true clientX (value s))
          (S (listeners s)) (reported s).

(** [handleMouseMove], one call. *)
Definition handleMouseMove (clientX : R) (s : State) : State :=
  let d := dragStateRef s in
  if dragging d then
    let deltaX := lastX d - clientX in
    let newValue := currentValue d - (deltaX * step s * 0.1) in
    mkState (value s) (step s) (isDragging s) (isActive s) (isFocused s)
            (mkDragState (startX d) (startValue d) true clientX newValue)
            (listeners s) (reported s ++ [newValue])
  else s.

(** [handleMouseUp], one call: it unregisters its own pair. *)
Definition handleMouseUp (s : State) : State :=
  let d := dragStateRef s in
  mkState (value s) (step s) false false (isFocused s)
          (mkDragState (startX d) (startValue d) false (lastX d) (currentValue d))
          (pred (listeners s)) (reported s).

(** The [mousemove] and [mouseup] events of the document reach every
    registered pair. *)
Definition mouseMove (clientX : R) (s : State) : State :=
  Nat.iter (listeners s) (handleMouseMove clientX) s.

(** Likewise for [mouseup]. *)
Definition mouseUp (s : State) : State :=
  Nat.iter (listeners s) handleMouseUp s.

(** The parent renders the field with a new [value]: the effect on
    [value] and [isFocused] runs when the value differs from the previous
    one, and copies it into the ref. *)
Definition receiveValue (v : R) (s : State) : State :=
  if Req_dec_T v (value s) then s
  else
    let d := dragStateRef s in
    mkState v (step s) (isDragging s) (isActive s) (isFocused s)
            (mkDragState (startX d) (startValue d) (dragging d) (lastX d) v)
            (listeners s) (reported s).

(** One mouse move of a drag, with a parent that stores [parent r] when
    [onChange] is called with [r]: of the updates queued during the event
    the last one wins, and the render that follows passes the stored value
    back as [value]. *)
Definition dragMove (parent : R -> R) (s : State) (clientX : R) : State :=
  let s1 := mouseMove clientX s in
  match skipn (length (reported s)) (reported s1) with
  | [] => s1
  | r :: rest => receiveValue (parent (List.last rest r)) s1
  end.

(** The moves of a drag, at the pointer positions [xs]. *)
Definition drag (parent : R -> R) (xs : list R) (s : State) : State :=
  fold_left (dragMove parent) xs s.

End NumericInput.

(** ** The wiring between [ModelScene] and the controls *)

Module CameraWiring.
Import CameraAuthority.

(** The interaction flags that the props of [<OrbitControls>] and the
    orbit-controls effect give the controls. *)
Definition flagsMatch (s : State) (c : OrbitControls) : Prop :=
  enablePan c = orbitControlsEnabled s
  /\ enableZoom c = orbitControlsEnabled s
  /\ enableRotate c = (orbitControlsEnabled s && negb (kiosk s)).

(** The orbit-controls effect has seen the current dependencies. *)
Definition upToDate (s : State) : Prop := effectDeps s = Some (depsOf s).

(** The two refs are set together, to objects of the same canvas. *)
Definition refsTogether (s : State) : Prop :=
  option_map cam_id (cameraRef s) = option_map ctl_id (controlsRef s).

(** The synchronisation effect never ran for objects newer than the
    mounted ones. *)
Definition syncNotAhead (s : State) : Prop :=
  forall i j, syncDeps s = Some (i, Some j) ->
    exists c, controlsRef s = Some c /\ (j <= ctl_id c)%nat.

(** The invariant of the reachable states that the properties of the
    controls rest on. *)
Definition wiring (s : State) : Prop :=
  (forall c, controlsRef s = Some c -> flagsMatch s c)
  /\ (upToDate s -> forall c, controlsRef s = Some c ->
      enabled c = orbitControlsEnabled s
      /\ (orbitControlsEnabled s = true -> listeners c = [true]))
  /\ refsTogether s
  /\ syncNotAhead s.

(** The pose as [handleChange] and the synchronisation effect store it. *)
Definition mirrored (p : LivePose) (prev : Camera) : Camera :=
  mkCamera (Three.toArray (live_position p))
           [JsMath.radToDeg (Three.x (live_rotation p));
            JsMath.radToDeg (Three.y (live_rotation p));
            JsMath.radToDeg (Three.z (live_rotation p))]
           (zoom prev) (Three.toArray (live_target p))
           (fov prev) (near prev) (far prev).

End CameraWiring.

(** ** Further assets and states used in the scenarios *)

Module MoreScenarios.
Import Three.

(** The asset with clips [A] and [B] is loaded and Stop is pressed. *)
Definition stoppedA : Playback.State :=
  Playback.setIsPlaying "stopped"
    (Playback.mountModel [Scenarios.clipA; Scenarios.clipB] Playback.initialParent).

(** A clip without a name. *)
Definition unnamed : AnimationClip := mkClip EmptyString 3.

(** An asset without cameras and clips, bounded by the cube with
    half-extents [(1, 1, 1)] around [(0, 1, 0)]. *)
Definition cube : SceneInspector.GLTF :=
  SceneInspector.mkGLTF [] [] (boxAround (mkVector3 0 1 0) (mkVector3 1 1 1)).

(** A camera at [(2, 1, 3)] turned by half a turn about the Y axis: it
    looks towards +Z. *)
Definition backCamera : SceneInspector.CameraNode :=
  SceneInspector.mkCameraNode (mkVector3 2 1 3) (mkQuaternion 0 1 0 0) 40 0.1 1000 1.

(** The position field is edited while the controls orbit. *)
Definition edited : CameraAuthority.State :=
  CameraAuthority.step (CameraAuthority.PositionEdit [1; 2; 3]) Scenarios.orbiting.

End MoreScenarios.

(** * Properties *)

(** ** Numeric enclosures *)

Section Enclosures.

(** Machin's series, cut after six terms. *)
Lemma PI_enclosure : 3.14159 < PI < 3.1416.
Proof.
  generalize (PI_2_3_7_ineq 2).
  unfold PI_2_3_7_tg, tg_alt, Ratan_seq.
  cbn [sum_f_R0 Nat.mul Nat.add pow INR].
  lra.
Qed.

Lemma fact_values :
  INR (fact 1) = 1 /\ INR (fact 2) = 2 /\ INR (fact 3) = 6 /\
  INR (fact 4) = 24 /\ INR (fact 5) = 120 /\ INR (fact 6) = 720 /\
  INR (fact 7) = 5040 /\ INR (fact 8) = 40320 /\ INR (fact 9) = 362880.
Proof.
  repeat split; rewrite INR_IZR_INZ; apply f_equal; reflexivity.
Qed.

(** Taylor polynomials around sine and cosine on [[0, 1]]. *)
Lemma sin_cos_poly (a : R) :
  0 <= a -> a <= 1 ->
  a - a^3/6 + a^5/120 - a^7/5040 <= sin a
    <= a - a^3/6 + a^5/120 - a^7/5040 + a^9/362880 /\
  1 - a^2/2 + a^4/24 - a^6/720 <= cos a
    <= 1 - a^2/2 + a^4/24 - a^6/720 + a^8/40320.
Proof.
  intros H0 H1. pose proof PI_enclosure as HP.
  assert (Hs : sin_lb a <= sin a <= sin_ub a) by (apply SIN; lra).
  assert (Hc : cos_lb a <= cos a <= cos_ub a) by (apply COS; lra).
  unfold sin_lb, sin_ub, sin_approx, sin_term in Hs.
  unfold cos_lb, cos_ub, cos_approx, cos_term in Hc.
  cbn [sum_f_R0 Nat.mul Nat.add] in Hs, Hc.
  destruct fact_values as (F1 & F2 & F3 & F4 & F5 & F6 & F7 & F8 & F9).
  change (fact 0) with (fact 1) in Hc.
  rewrite F1, ?F3, ?F5, ?F7, ?F9 in Hs.
  rewrite F1, ?F2, ?F4, ?F6, ?F8 in Hc.
  cbn [pow] in *. lra.
Qed.

Lemma tan_upper_at : tan (21817/50000) < 0.46635.
Proof.
  destruct (sin_cos_poly (21817/50000)) as [[_ Hs] [Hc _]]; [lra | lra |].
  cbn [pow] in Hs, Hc.
  assert (Hc0 : 0.906304 < cos (21817/50000)) by lra.
  assert (Hs0 : sin (21817/50000) < 0.422626) by lra.
  clear Hs Hc. unfold tan.
  apply Rmult_lt_reg_r with (cos (21817/50000)); [lra|].
  unfold Rdiv at 1. rewrite Rmult_assoc, Rinv_l by lra. lra.
Qed.

Lemma tan_lower_at : 0.46625 < tan (43633/100000).
Proof.
  destruct (sin_cos_poly (43633/100000)) as [[Hs _] [Hc' Hc]]; [lra | lra |].
  cbn [pow] in Hs, Hc, Hc'.
  assert (Hc0 : cos (43633/100000) < 0.906309) by lra.
  assert (Hc1 : 0 < cos (43633/100000)) by lra.
  assert (Hs0 : 0.422616 < sin (43633/100000)) by lra.
  clear Hs Hc Hc'. unfold tan.
  apply Rmult_lt_reg_r with (cos (43633/100000)); [lra|].
  unfold Rdiv at 2. rewrite Rmult_assoc, Rinv_l by lra. lra.
Qed.

(** The tangent of half the default field of view (25 degrees). *)
Lemma tan_half_fov : 0.46625 < tan ((50 * PI) / 360) < 0.46635.
Proof.
  pose proof PI_enclosure as HP.
  split.
  - apply Rlt_trans with (tan (43633/100000)); [apply tan_lower_at|].
    apply tan_increasing; lra.
  - apply Rlt_trans with (tan (21817/50000)); [|apply tan_upper_at].
    apply tan_increasing; lra.
Qed.

(** [cos 30 * sin 135], the horizontal share of the distance. *)
Lemma horizontal_share :
  0.61237 < sqrt 3 / 2 * (1 / sqrt 2) < 0.61238.
Proof.
  assert (H3 : 0 < sqrt 3) by (apply sqrt_lt_R0; lra).
  assert (H2 : 0 < sqrt 2) by (apply sqrt_lt_R0; lra).
  assert (E3 : sqrt 3 * sqrt 3 = 3) by (apply sqrt_sqrt; lra).
  assert (E2 : sqrt 2 * sqrt 2 = 2) by (apply sqrt_sqrt; lra).
  set (k := sqrt 3 / 2 * (1 / sqrt 2)).
  assert (Hk : 0 < k).
  { unfold k. apply Rmult_lt_0_compat; [lra|].
    apply Rdiv_lt_0_compat; lra. }
  assert (Ek : k * k = 3 / 8).
  { unfold k. field_simplify; [|lra]. rewrite !pow2_sqrt by lra. lra. }
  split; nra.
Qed.

End Enclosures.

(** ** Scene inspection *)

Section Framing.
Import Three JsMath SceneInspector.

Lemma isEmpty_boxAround (c s : Vector3) :
  0 <= x s -> 0 <= y s -> 0 <= z s -> isEmpty (boxAround c s) = false.
Proof.
  intros Hx Hy Hz. unfold isEmpty, boxAround; simpl.
  repeat match goal with
         | |- context [Rlt_dec ?a ?b] => destruct (Rlt_dec a b); [lra|]
         end.
  reflexivity.
Qed.

Lemma getSize_boxAround (c s : Vector3) :
  0 <= x s -> 0 <= y s -> 0 <= z s ->
  getSize (boxAround c s) = mkVector3 (2 * x s) (2 * y s) (2 * z s).
Proof.
  intros Hx Hy Hz. unfold getSize.
  rewrite isEmpty_boxAround by assumption.
  unfold boxAround, sub, add; simpl. f_equal; ring.
Qed.

Lemma getCenter_boxAround (c s : Vector3) :
  0 <= x s -> 0 <= y s -> 0 <= z s -> getCenter (boxAround c s) = c.
Proof.
  intros Hx Hy Hz. unfold getCenter.
  rewrite isEmpty_boxAround by assumption.
  destruct c as [cx cy cz]. unfold boxAround, sub, add; simpl. f_equal; lra.
Qed.

Lemma tan_half_fov_pos : 0 < 2 * tan ((defaultFov * PI) / 360).
Proof. unfold defaultFov. pose proof tan_half_fov. lra. Qed.

(** The distance in closed form. *)
Lemma distance_closed_form (box : Box3) :
  distance box = 1.2 * maxDim box / (2 * tan (degToRad (50 / 2))).
Proof.
  unfold distance, cameraDistance, degToRad, DEG2RAD, defaultFov.
  replace (50 / 2 * (PI / 180)) with (50 * PI / 360) by field.
  pose proof tan_half_fov. field. lra.
Qed.

Lemma angles_in_degrees :
  verticalAngle = degToRad 30 /\ horizontalAngle = degToRad 135.
Proof. unfold verticalAngle, horizontalAngle, degToRad, DEG2RAD. split; field. Qed.

(** The framing distance of the cube with half-extents [(1, 1, 1)]. *)
Lemma unit_cube_distance (c : Vector3) :
  2.5731 < distance (boxAround c (mkVector3 1 1 1)) < 2.5738.
Proof.
  unfold distance, cameraDistance, maxDim.
  rewrite getSize_boxAround by (simpl; lra). simpl.
  replace (Rmax (Rmax (2 * 1) (2 * 1)) (2 * 1)) with 2
    by (unfold Rmax; repeat destruct Rle_dec; lra).
  pose proof tan_half_fov as [Hl Hu]. unfold defaultFov.
  set (t := tan (50 * PI / 360)) in *.
  assert (Ht : 0 < t) by lra.
  replace (2 / (2 * t) * 1.2) with (1.2 / t) by (field; lra).
  split.
  - apply Rmult_lt_reg_r with t; [lra|].
    unfold Rdiv. rewrite Rmult_assoc, Rinv_l by lra. lra.
  - apply Rmult_lt_reg_r with t; [lra|].
    unfold Rdiv at 1. rewrite Rmult_assoc, Rinv_l by lra. lra.
Qed.

(** The camera position of the framing branch, with the trigonometric
    constants evaluated. *)
Lemma framed_position (box : Box3) :
  position (framedCamera box) =
    [distance box * (sqrt 3 / 2) * (-1 / sqrt 2);
     distance box * (1 / 2);
     distance box * (sqrt 3 / 2) * (1 / sqrt 2)].
Proof.
  unfold framedCamera; simpl. unfold verticalAngle, horizontalAngle.
  replace (PI * 3 / 4) with (3 * (PI / 4)) by field.
  rewrite cos_PI6, sin_PI6, cos_3PI4, sin_3PI4. reflexivity.
Qed.

Lemma unit_cube_position (c : Vector3) :
  exists px py pz,
    position (framedCamera (boxAround c (mkVector3 1 1 1))) = [px; py; pz] /\
    -1.5762 < px < -1.5756 /\ 1.2865 < py < 1.2869 /\ 1.5756 < pz < 1.5762.
Proof.
  rewrite framed_position.
  pose proof (unit_cube_distance c) as [Hl Hu].
  pose proof horizontal_share as [Kl Ku].
  set (d := distance _) in *. set (k := sqrt 3 / 2 * (1 / sqrt 2)) in *.
  exists (d * (sqrt 3 / 2) * (-1 / sqrt 2)), (d * (1 / 2)), (d * (sqrt 3 / 2) * (1 / sqrt 2)).
  split; [reflexivity|].
  assert (Hdk : 1.5756 < d * k < 1.5762) by (split; nra).
  replace (d * (sqrt 3 / 2) * (-1 / sqrt 2)) with (- (d * k))
    by (unfold k; field; apply Rgt_not_eq, sqrt_lt_R0; lra).
  replace (d * (sqrt 3 / 2) * (1 / sqrt 2)) with (d * k)
    by (unfold k; field; apply Rgt_not_eq, sqrt_lt_R0; lra).
  lra.
Qed.

Lemma inspect_no_camera (clips : list AnimationClip) (box : Box3) :
  camera (fst (inspect (mkGLTF [] clips box))) = framedCamera box.
Proof. reflexivity. Qed.

Lemma maxDim_boxAround (c s : Vector3) :
  0 <= x s -> 0 <= y s -> 0 <= z s ->
  maxDim (boxAround c s) = Rmax (Rmax (2 * x s) (2 * y s)) (2 * z s).
Proof.
  intros Hx Hy Hz. unfold maxDim. rewrite getSize_boxAround by assumption.
  reflexivity.
Qed.

Lemma maxDim_point (c : Vector3) : maxDim (boxAround c (mkVector3 0 0 0)) = 0.
Proof.
  rewrite maxDim_boxAround by (simpl; lra). simpl.
  unfold Rmax; repeat destruct Rle_dec; lra.
Qed.

Lemma Rabs_within (a b eps : R) : b - eps <= a <= b + eps -> Rabs (a - b) <= eps.
Proof. intros H. apply Rabs_le. lra. Qed.

Lemma Rabs_within_inv (a b eps : R) : Rabs (a - b) <= eps -> b - eps <= a <= b + eps.
Proof. intros H. unfold Rabs in H. destruct (Rcase_abs (a - b)); lra. Qed.

(** C2 (as amended).  Without an authored camera, for a bounding box with
    half-extents [(sx, sy, sz)] the camera is placed at distance
    [1.2 * maxDim / (2 * tan (fov / 2))], [fov] being 50 degrees and
    [maxDim] the largest full extent, in the direction of elevation 30
    degrees and azimuth 135 degrees, looking at the origin; for the cube
    with half-extents [(1, 1, 1)] the position is [(-1.576, 1.287, 1.576)]
    to three decimals. *)
Theorem framing_pose :
  forall (clips : list AnimationClip) (c s : Vector3),
    0 <= x s -> 0 <= y s -> 0 <= z s ->
    let settings := camera (fst (inspect (mkGLTF [] clips (boxAround c s)))) in
    let maxDim := Rmax (Rmax (2 * x s) (2 * y s)) (2 * z s) in
    let distance := 1.2 * maxDim / (2 * tan (degToRad (50 / 2))) in
    position settings =
      [distance * cos (degToRad 30) * cos (degToRad 135);
       distance * sin (degToRad 30);
       distance * cos (degToRad 30) * sin (degToRad 135)]
    /\ target settings = [0; 0; 0]
    /\ fov settings = 50
    /\ (s = mkVector3 1 1 1 ->
        close_to 0.0005 (position settings) [-1.576; 1.287; 1.576]).
Proof.
  intros clips c s Hx Hy Hz settings maxDim0 distance0.
  unfold settings. rewrite inspect_no_camera.
  split; [|split; [|split]]; try reflexivity.
  - unfold framedCamera; simpl.
    destruct angles_in_degrees as [-> ->].
    rewrite distance_closed_form, maxDim_boxAround by assumption.
    reflexivity.
  - intros ->.
    destruct (unit_cube_position c) as (px & py & pz & -> & Hpx & Hpy & Hpz).
    simpl. repeat split; apply Rabs_within; lra.
Qed.

(** The cube with half-extents [(1, 1, 1)] around the origin. *)
Lemma framing_pose_witness :
  close_to 0.0005
    (position (camera (fst (inspect
       (mkGLTF [] [] (boxAround (mkVector3 0 0 0) (mkVector3 1 1 1)))))))
    [-1.576; 1.287; 1.576].
Proof.
  apply (framing_pose [] (mkVector3 0 0 0) (mkVector3 1 1 1)); simpl;
    (lra || reflexivity).
Defined.

(** C2, the figure of the design document: the position computed for the
    unit cube is further than 0.002 from [(-1.573, 1.287, 1.573)]. *)
Lemma framing_unit_cube_not_1573 :
  ~ close_to 0.002
      (position (camera (fst (inspect
         (mkGLTF [] [] (boxAround (mkVector3 0 0 0) (mkVector3 1 1 1)))))))
      [-1.573; 1.287; 1.573].
Proof.
  rewrite inspect_no_camera.
  destruct (unit_cube_position (mkVector3 0 0 0))
    as (px & py & pz & -> & Hpx & Hpy & Hpz).
  simpl. intros [H _]. apply Rabs_within_inv in H. lra.
Qed.

(** C3 (as amended).  For a bounding box whose largest extent is zero the
    framing computation divides by a non-zero number and yields the
    distance zero: the camera is placed on its target, the origin, and no
    other distance is substituted. *)
Theorem degenerate_box_distance :
  forall (clips : list AnimationClip) (box : Box3),
    maxDim box = 0 ->
    let settings := camera (fst (inspect (mkGLTF [] clips box))) in
    0 < 2 * tan ((defaultFov * PI) / 360)
    /\ distance box = 0
    /\ position settings = [0; 0; 0]
    /\ target settings = [0; 0; 0].
Proof.
  intros clips box H settings.
  assert (Hd : distance box = 0).
  { unfold distance, cameraDistance. rewrite H. unfold Rdiv. ring. }
  repeat split.
  - apply tan_half_fov_pos.
  - exact Hd.
  - unfold settings. rewrite inspect_no_camera. unfold framedCamera; simpl.
    rewrite Hd. f_equal; [|f_equal; [|f_equal]]; ring.
Qed.

(** A box reduced to a point. *)
Lemma degenerate_box_distance_witness :
  distance (boxAround (mkVector3 0 0 0) (mkVector3 0 0 0)) = 0.
Proof.
  apply (degenerate_box_distance [] (boxAround (mkVector3 0 0 0) (mkVector3 0 0 0))).
  apply maxDim_point.
Defined.

(** C3, as the design document states it: a strictly positive distance
    for the degenerate box.  The computed distance is not positive. *)
Lemma degenerate_box_no_fallback :
  ~ 0 < distance (boxAround (mkVector3 0 0 0) (mkVector3 0 0 0)).
Proof.
  unfold distance, cameraDistance. rewrite maxDim_point.
  unfold Rdiv. rewrite !Rmult_0_l. lra.
Qed.



End Framing.

(** ** Animation playback *)

Section PlaybackProperties.
Import Three Playback.

Lemma resolve_Some (s : State) (action : AnimationAction) :
  resolve s = Some action ->
  exists n, currentAnimation s = Some n /\ n <> EmptyString /\ actions s !! n = Some action.
Proof.
  unfold resolve. destruct (currentAnimation s) as [n|]; [|discriminate].
  destruct (decide (n = EmptyString)); [discriminate|]. eauto.
Qed.

Lemma resolve_lookup (s : State) (n : string) :
  currentAnimation s = Some n -> n <> EmptyString -> resolve s = actions s !! n.
Proof.
  intros H Hn. unfold resolve. rewrite H.
  destruct (decide (n = EmptyString)); [contradiction|reflexivity].
Qed.

(** Nothing happens at the render of a state without pending effects. *)
Lemma renderPass_committed (s : State) : committed s -> renderPass s = s.
Proof.
  intros [Hd Hf].
  unfold renderPass. rewrite Hf. unfold animationEffect.
  destruct (decide (animDeps s = Some (depsOf s))); [reflexivity|contradiction].
Qed.

Lemma commit_committed (s : State) : committed s -> commit s = s.
Proof.
  intros H. unfold commit. rewrite !renderPass_committed; auto.
  rewrite renderPass_committed; auto.
Qed.

(** The effect body touches nothing but the actions. *)
Lemma applyStatus_frame (s : State) :
  exists m, applyStatus s = withActions m s.
Proof.
  unfold applyStatus.
  destruct (negb (isInitialized s)); [exists (actions s); destruct s; reflexivity|].
  destruct (currentAnimation s) eqn:E;
    [|exists (actions s); destruct s; reflexivity].
  destruct (resolve s); [|exists (actions s); destruct s; reflexivity].
  repeat (case_decide; [eexists; reflexivity|]).
  exists (actions s); destruct s; reflexivity.
Qed.

Lemma animationEffect_deps (s : State) :
  animDeps (animationEffect s) = Some (depsOf s)
  /\ depsOf (animationEffect s) = depsOf s
  /\ animations (animationEffect s) = animations s.
Proof.
  unfold animationEffect.
  destruct (decide (animDeps s = Some (depsOf s))) as [E|E]; [auto|].
  destruct (applyStatus_frame s) as [m ->]. simpl. auto.
Qed.

Lemma firstAnimation_ext (s s' : State) :
  animations s' = animations s -> isInitialized s' = isInitialized s ->
  firstAnimation s' = firstAnimation s.
Proof. unfold firstAnimation. intros -> ->. reflexivity. Qed.

Lemma renderPass_idle (s : State) :
  firstAnimation s = None -> committed (renderPass s).
Proof.
  intros Hf. unfold renderPass. rewrite Hf.
  destruct (animationEffect_deps s) as (Hd & He & Ha).
  split.
  - rewrite Hd, He. reflexivity.
  - rewrite <- Hf. apply firstAnimation_ext; [exact Ha|].
    unfold depsOf in He. congruence.
Qed.

(** Every commit ends in a state without pending effects. *)
Lemma commit_is_committed (s : State) : committed (commit s).
Proof.
  unfold commit.
  destruct (firstAnimation s) as [n|] eqn:Hf.
  - apply renderPass_idle.
    unfold renderPass at 1. rewrite Hf.
    unfold firstAnimation; simpl.
    destruct (animations (animationEffect (playFirst n s))); reflexivity.
  - pose proof (renderPass_idle s Hf) as Hc.
    rewrite (renderPass_committed _ Hc). exact Hc.
Qed.

(** C6.  With an active clip whose action resolves, scrubbing to a
    progress in [[0, 1]] sets the time of that action to
    [progress * clipDuration]; the action is paused afterwards exactly when
    it was paused before, and the playback status is unchanged. *)
Theorem scrub_postcondition :
  forall (s : State) (p : R) (action : AnimationAction),
    0 <= p <= 1 -> committed s -> resolve s = Some action ->
    let s' := handleProgressChange p s in
    exists action',
      resolve s' = Some action'
      /\ time action' = p * duration (getClip action)
      /\ paused action' = paused action
      /\ getClip action' = getClip action
      /\ isPlaying s' = isPlaying s
      /\ currentAnimation s' = currentAnimation s.
Proof.
  intros s p action Hp [Hd Hf] Hres s'.
  destruct (resolve_Some s action Hres) as (n & Hn & Hne & Hlk).
  unfold s', handleProgressChange, handleProgress. rewrite Hn, Hres.
  set (action2 := if paused (setTime _ action) then _ else _).
  rewrite commit_committed.
  - exists action2. split; [|split; [|split; [|split; [|split]]]].
    + rewrite (resolve_lookup _ n) by (simpl; assumption).
      simpl. apply lookup_insert_eq.
    + unfold action2. simpl. destruct (paused action); simpl; apply Rmult_comm.
    + unfold action2. simpl. destruct (paused action) eqn:E; simpl; congruence.
    + unfold action2. simpl. destruct (paused action); reflexivity.
    + reflexivity.
    + simpl. exact Hn.
  - split; [exact Hd|].
    rewrite <- Hf. apply firstAnimation_ext; reflexivity.
Qed.

(** Clip [A] of four seconds, paused, scrubbed to the middle. *)
Lemma scrub_postcondition_witness :
  exists action',
    resolve (handleProgressChange 0.5 Scenarios.pausedA) = Some action'
    /\ time action' = 0.5 * 4 /\ paused action' = true.
Proof.
  destruct (scrub_postcondition Scenarios.pausedA 0.5
              (mkAction Scenarios.clipA 0 true true true LoopRepeat))
    as (action' & H1 & H2 & H3 & _).
  - lra.
  - apply commit_is_committed.
  - vm_compute. reflexivity.
  - exists action'. auto.
Defined.

(** C10.  [getDuration] is total: it is 0 when no clip is selected, when
    the selection is the empty name, and when the selected name has no
    action; otherwise it is the duration of the selected clip. *)
Theorem getDuration_total :
  forall (s : State),
    (currentAnimation s = None -> getDuration s = 0)
    /\ (currentAnimation s = Some EmptyString -> getDuration s = 0)
    /\ (forall n, currentAnimation s = Some n -> actions s !! n = None ->
        getDuration s = 0)
    /\ (forall n action,
          currentAnimation s = Some n -> n <> EmptyString ->
          actions s !! n = Some action ->
          getDuration s = duration (getClip action)).
Proof.
  intros s. unfold getDuration, resolve.
  split; [|split; [|split]].
  - intros ->. reflexivity.
  - intros ->. reflexivity.
  - intros n -> Hl. destruct (decide (n = EmptyString)); [reflexivity|].
    rewrite Hl. reflexivity.
  - intros n action -> Hn Hl.
    destruct (decide (n = EmptyString)); [contradiction|].
    rewrite Hl. reflexivity.
Qed.

(** Clip [A] of four seconds is selected. *)
Lemma getDuration_total_witness : getDuration Scenarios.pausedA = 4.
Proof.
  apply (proj2 (proj2 (proj2 (getDuration_total Scenarios.pausedA))) "A"
           (mkAction Scenarios.clipA 0 true true true LoopRepeat)).
  - vm_compute. reflexivity.
  - discriminate.
  - vm_compute. reflexivity.
Defined.




(** The first asset that [Model] receives after mounting is seeded: the
    first clip is selected and its action started.  The status becomes the
    boolean [true]. *)
Lemma mount_seeds (first : AnimationClip) (rest : list AnimationClip) (s : State) :
  name first <> EmptyString ->
  let s' := mountModel (first :: rest) s in
  currentAnimation s' = Some (name first)
  /\ isPlaying s' = PBool true
  /\ isInitialized s' = true.
Proof.
  intros Hn s'. unfold s', mountModel, commit.
  set (s0 := mkState _ _ _ _ _ _ _ _).
  assert (Hf : firstAnimation s0 = Some (name first)).
  { unfold firstAnimation; simpl.
    destruct (decide (name first = EmptyString)); [contradiction|reflexivity]. }
  set (s1 := renderPass s0).
  assert (H1 : currentAnimation s1 = Some (name first)
               /\ isPlaying s1 = PBool true /\ isInitialized s1 = true).
  { unfold s1, renderPass. rewrite Hf. simpl. auto. }
  destruct H1 as (Hc & Hp & Hi).
  assert (Hf1 : firstAnimation s1 = None).
  { unfold firstAnimation. rewrite Hi. destruct (animations s1); reflexivity. }
  unfold renderPass. rewrite Hf1.
  destruct (animationEffect_deps s1) as (_ & He & _).
  unfold depsOf in He. inversion He as [[H1 H2 H3 H4]].
  rewrite H2, H3, H4. auto.
Qed.

(** C9, on the asset [Walk] replaced by the asset [Jump] while [Model]
    stays mounted.  The first load selects [Walk] and sets the status to
    the boolean [true], not to ['playing'].  After the second load the
    selection is still [Walk], which the new asset cannot resolve, and the
    action of [Jump] was never started. *)
Theorem seeding_misses_replaced_asset :
  let s1 := mountModel [Scenarios.walk] initialParent in
  let s2 := replaceAsset [Scenarios.jump] s1 in
  (currentAnimation s1 = Some "Walk" /\ isPlaying s1 = PBool true
   /\ isPlaying s1 <> PStr "playing")
  /\ (currentAnimation s2 = Some "Walk" /\ currentAnimation s2 <> Some "Jump"
      /\ isPlaying s2 <> PStr "playing"
      /\ resolve s2 = None
      /\ actions s2 !! "Jump" = Some (clipAction Scenarios.jump)
      /\ isRunning (clipAction Scenarios.jump) = false).
Proof.
  repeat split; try (vm_compute; congruence).
Qed.

End PlaybackProperties.

(** ** Camera authority *)

Section AuthorityProperties.
Import Three JsMath CameraAuthority.

(** *** What each piece leaves alone *)

Ltac frame := simpl in *; repeat split; (reflexivity || congruence).

Lemma handleChange_frame (b : bool) (s : State) :
  wiringOf (handleChange b s) = wiringOf s
  /\ cameraRef (handleChange b s) = cameraRef s
  /\ syncDeps (handleChange b s) = syncDeps s.
Proof.
  unfold handleChange, wiringOf.
  destruct (cameraRef s) eqn:?, (controlsRef s) eqn:?, b; frame.
Qed.

Lemma dispatchChange_frame (s : State) :
  wiringOf (dispatchChange s) = wiringOf s
  /\ cameraRef (dispatchChange s) = cameraRef s
  /\ syncDeps (dispatchChange s) = syncDeps s.
Proof.
  unfold dispatchChange. destruct (controlsRef s) as [c|] eqn:E; [|frame].
  clear E. generalize (listeners c). intros l. revert s.
  induction l as [|b l IH]; intros s; [frame|].
  simpl. destruct (IH (handleChange b s)) as (H1 & H2 & H3).
  destruct (handleChange_frame b s) as (G1 & G2 & G3).
  repeat split; congruence.
Qed.


(** The orbit-controls effect never writes the camera pose. *)
Lemma orbitControlsEffect_frame (s : State) :
  sceneSettings (orbitControlsEffect s) = sceneSettings s
  /\ orbitControlsEnabled (orbitControlsEffect s) = orbitControlsEnabled s
  /\ kiosk (orbitControlsEffect s) = kiosk s
  /\ cameraRef (orbitControlsEffect s) = cameraRef s
  /\ syncDeps (orbitControlsEffect s) = syncDeps s
  /\ option_map ctl_id (controlsRef (orbitControlsEffect s))
     = option_map ctl_id (controlsRef s).
Proof.
  unfold orbitControlsEffect.
  destruct (decide (effectDeps s = Some (depsOf s))); [frame|].
  unfold effectBody, runCleanup.
  destruct (effectCleanup s) eqn:Ec, (controlsRef s) eqn:Hc; simpl;
    rewrite ?Hc; simpl;
    destruct (orbitControlsEnabled s) eqn:?; simpl; rewrite ?Hc; frame.
Qed.

(** The synchronisation effect writes nothing but the camera pose. *)
Lemma syncEffect_frame (s : State) :
  wiringOf (syncEffect s) = wiringOf s
  /\ cameraRef (syncEffect s) = cameraRef s
  /\ syncDeps (syncEffect s) = Some (syncDepsOf s)
  /\ (synced s -> syncEffect s = s).
Proof.
  unfold syncEffect, wiringOf, synced.
  destruct (decide (syncDeps s = Some (syncDepsOf s))) as [E|E]; [frame|].
  destruct (cameraRef s) eqn:?, (controlsRef s) eqn:?; frame.
Qed.

(** *** Handlers do not touch the wiring *)

Lemma sameWiring_refl (s : State) : sameWiring s s.
Proof.
  unfold sameWiring. repeat split. destruct (controlsRef s); [frame|exact I].
Qed.

Lemma sameWiring_trans (s s1 s2 : State) :
  sameWiring s s1 -> sameWiring s1 s2 -> sameWiring s s2.
Proof.
  unfold sameWiring. intros (A1 & A2 & A3) (B1 & B2 & B3).
  split; [congruence|]. split; [congruence|].
  destruct (controlsRef s), (controlsRef s1), (controlsRef s2); try tauto.
  destruct A3 as (? & ? & ? & ? & ? & ?), B3 as (? & ? & ? & ? & ? & ?).
  repeat split; congruence.
Qed.

Lemma sameWiring_fields (s s1 : State) :
  effectDeps s1 = effectDeps s -> effectCleanup s1 = effectCleanup s ->
  controlsRef s1 = controlsRef s -> sameWiring s s1.
Proof.
  intros H1 H2 H3. unfold sameWiring. rewrite H3.
  repeat split; try assumption. destruct (controlsRef s); [frame|exact I].
Qed.

Lemma sameWiring_wiringOf (s s1 : State) :
  wiringOf s1 = wiringOf s -> sameWiring s s1.
Proof.
  unfold wiringOf. intros H. inversion H.
  apply sameWiring_fields; assumption.
Qed.

Lemma sameWiring_setTarget (t : Vector3) (s : State) :
  sameWiring s (withControls (setTarget t) s).
Proof.
  unfold sameWiring; simpl. repeat split.
  destruct (controlsRef s); simpl; [frame|exact I].
Qed.

Lemma sameWiring_setLive (p : LivePose) (s : State) : sameWiring s (setLive p s).
Proof.
  unfold setLive. eapply sameWiring_trans; [|apply sameWiring_setTarget].
  apply sameWiring_fields; reflexivity.
Qed.

Lemma sameWiring_dispatchChange (s : State) : sameWiring s (dispatchChange s).
Proof.
  destruct (dispatchChange_frame s) as (H & _).
  apply sameWiring_wiringOf. exact H.
Qed.

Lemma sameWiring_handleTargetChange (v : list R) (moved : option LivePose) (s : State) :
  sameWiring s (handleTargetChange v moved s).
Proof.
  unfold handleTargetChange. simpl.
  destruct (controlsRef s) eqn:E; [|apply sameWiring_fields; reflexivity].
  set (s2 := withSettings _ (setOrbitControlsEnabled false s)).
  assert (H2 : sameWiring s s2) by (apply sameWiring_fields; reflexivity).
  assert (H3 : sameWiring s (withControls (setTarget (vector3Of v)) s2))
    by (eapply sameWiring_trans; [exact H2|apply sameWiring_setTarget]).
  destruct moved as [p|]; [|exact H3].
  eapply sameWiring_trans; [exact H3|].
  eapply sameWiring_trans; [apply sameWiring_setLive|apply sameWiring_dispatchChange].
Qed.

Lemma sameWiring_resetCameraToViewTarget (r : Vector3) (s : State) :
  sameWiring s (resetCameraToViewTarget r s).
Proof.
  unfold resetCameraToViewTarget.
  destruct (cameraRef s), (controlsRef s) eqn:E; try apply sameWiring_refl.
  apply sameWiring_fields; simpl; auto.
Qed.

(** Before its commit, every event has left the wiring alone. *)
Lemma sameWiring_handlerOf (e : Event) (s : State) : sameWiring s (handlerOf e s).
Proof.
  destruct e; simpl;
    try (apply sameWiring_fields; reflexivity).
  - apply sameWiring_setLive.
  - eapply sameWiring_trans; [apply sameWiring_setLive|apply sameWiring_dispatchChange].
  - apply sameWiring_handleTargetChange.
  - apply sameWiring_resetCameraToViewTarget.
Qed.

Lemma step_handlerOf (e : Event) (s : State) :
  step e s = match e with
             | Mount p => mount p s
             | Frame p => setLive p s
             | OrbitChange p =>
                 if changeQueuesUpdate (setLive p s)
                 then commit (handlerOf e s) else setLive p s
             | _ => commit (handlerOf e s)
             end.
Proof. destruct e; reflexivity. Qed.

(** *** The invariant *)

(** After the cleanup of the previous run nothing of this component
    listens to the controls. *)
Lemma runCleanup_spec (s : State) :
  listenersOk s ->
  effectCleanup (runCleanup s) = None
  /\ orbitControlsEnabled (runCleanup s) = orbitControlsEnabled s
  /\ kiosk (runCleanup s) = kiosk s
  /\ match controlsRef s, controlsRef (runCleanup s) with
     | None, None => True
     | Some c, Some c1 =>
         ctl_id c1 = ctl_id c /\ listeners c1 = []
         /\ enabled c1 = enabled c /\ enablePan c1 = enablePan c
         /\ enableZoom c1 = enableZoom c /\ enableRotate c1 = enableRotate c
     | _, _ => False
     end.
Proof.
  intros [L1 L2]. unfold runCleanup.
  destruct (effectCleanup s) as [b|] eqn:Ec; simpl.
  - destruct (L2 b eq_refl) as [-> _].
    repeat split.
    destruct (controlsRef s) as [c|] eqn:E; simpl; [|exact I].
    repeat split.
    destruct (L1 c eq_refl) as [->|[-> _]]; reflexivity.
  - rewrite Ec. repeat split.
    destruct (controlsRef s) as [c|] eqn:E; [|exact I].
    repeat split.
    destruct (L1 c eq_refl) as [H|[_ H]]; [exact H|discriminate].
Qed.

Lemma listenersOk_sameWiring (s s1 : State) :
  listenersOk s -> sameWiring s s1 -> listenersOk s1.
Proof.
  intros [L1 L2] (E1 & E2 & W). split.
  - intros c1 Hc1. rewrite Hc1 in W.
    destruct (controlsRef s) as [c|]; [|contradiction].
    destruct W as (_ & Hl & _). rewrite Hl, E2. apply L1. reflexivity.
  - intros b Hb. rewrite E2 in Hb. rewrite E1. apply L2. exact Hb.
Qed.

(** What a run of the orbit-controls effect leaves behind. *)
Lemma orbitControlsEffect_run (s : State) :
  listenersOk s -> effectDeps s <> Some (depsOf s) ->
  let s' := orbitControlsEffect s in
  effectDeps s' = Some (depsOf s)
  /\ orbitControlsEnabled s' = orbitControlsEnabled s
  /\ kiosk s' = kiosk s
  /\ match controlsRef s, controlsRef s' with
     | None, None => effectCleanup s' = None
     | Some c, Some c' =>
         ctl_id c' = ctl_id c
         /\ if orbitControlsEnabled s
            then listeners c' = [true] /\ effectCleanup s' = Some true
            else listeners c' = [] /\ effectCleanup s' = None
                 /\ enabled c' = false /\ enablePan c' = false
                 /\ enableZoom c' = false /\ enableRotate c' = false
     | _, _ => False
     end.
Proof.
  intros L Hd.
  destruct (runCleanup_spec s L) as (Rc & Re & Rk & Rw).
  unfold orbitControlsEffect.
  destruct (decide (effectDeps s = Some (depsOf s))); [contradiction|].
  unfold effectBody. generalize dependent (runCleanup s). intros r Rc Re Rk Rw.
  destruct (controlsRef r) as [c|] eqn:Hc;
    destruct (controlsRef s) as [c0|] eqn:Hc0; try contradiction.
  - destruct Rw as (Rid & Rl & _). rewrite Re.
    destruct (orbitControlsEnabled s) eqn:Hen; simpl; rewrite Hc; simpl;
      rewrite ?Rl; repeat split; assumption.
  - simpl. rewrite Hc. repeat split; assumption.
Qed.

(** The orbit-controls effect re-establishes the invariant after a
    handler. *)
Lemma orbitControlsEffect_invariant (s s1 : State) :
  invariant s -> sameWiring s s1 -> invariant (orbitControlsEffect s1).
Proof.
  intros (L & NA & SY & OFF) W.
  pose proof (listenersOk_sameWiring s s1 L W) as L1.
  destruct (decide (effectDeps s1 = Some (depsOf s1))) as [Hd|Hd].
  - (* the effect is skipped *)
    destruct W as (E1 & E2 & W).
    unfold orbitControlsEffect.
    destruct (decide (effectDeps s1 = Some (depsOf s1))) as [_|]; [|contradiction].
    split; [exact L1|]. split; [|split].
    + intros i e k Hi. rewrite E1 in Hi.
      destruct (NA i e k Hi) as (c & Hc & Hle). rewrite Hc in W.
      destruct (controlsRef s1) as [c1|]; [|contradiction].
      exists c1. split; [reflexivity|]. destruct W as (-> & _). exact Hle.
    + intros i e k Hi. rewrite Hd in Hi. unfold depsOf in Hi.
      inversion Hi; subst. split; reflexivity.
    + intros Hen _ c1 Hc1.
      rewrite E1 in Hd.
      destruct (effectDeps s) as [[[i e] k]|] eqn:Hs; [|discriminate].
      destruct (SY i e k Hs) as [He Hk].
      unfold depsOf in Hd. inversion Hd as [[Hi' He' Hk']].
      rewrite Hc1 in W.
      destruct (controlsRef s) as [c|] eqn:Hc; [|contradiction].
      destruct W as (Wid & _ & W1 & W2 & W3 & W4).
      assert (Hoff : interactionOff s).
      { apply OFF; [congruence|].
        unfold depsOf. rewrite Hc, Hi', Hc1, <- He, <- Hk. simpl.
        rewrite Wid. reflexivity. }
      destruct (Hoff c Hc) as (? & ? & ? & ?).
      repeat split; congruence.
  - (* the cleanup runs, then the body *)
    destruct (orbitControlsEffect_run s1 L1 Hd) as (Cd & Ce & Ck & Cw).
    split; [split|split; [|split]].
    + intros c' Hc'. rewrite Hc' in Cw.
      destruct (controlsRef s1) as [c1|]; [|contradiction].
      destruct Cw as (_ & Cw).
      destruct (orbitControlsEnabled s1); [right|left]; tauto.
    + intros b Hb.
      destruct (controlsRef s1) as [c1|], (controlsRef (orbitControlsEffect s1)) as [c'|];
        try contradiction; [|congruence].
      destruct Cw as (_ & Cw).
      destruct (orbitControlsEnabled s1) eqn:Hen.
      * destruct Cw as (_ & Cw). rewrite Cw in Hb. inversion Hb; subst.
        split; [reflexivity|]. rewrite Cd. unfold depsOf. rewrite Hen. eauto.
      * destruct Cw as (_ & Cw & _). congruence.
    + intros i e k Hi. rewrite Cd in Hi. unfold depsOf in Hi.
      destruct (controlsRef s1) as [c1|]; [|discriminate].
      destruct (controlsRef (orbitControlsEffect s1)) as [c'|]; [|contradiction].
      destruct Cw as (Cid & _). inversion Hi; subst.
      exists c'. split; [reflexivity|]. rewrite Cid. apply Nat.le_refl.
    + intros i e k Hi. rewrite Cd in Hi. unfold depsOf in Hi.
      inversion Hi; subst. rewrite Ce, Ck. split; reflexivity.
    + intros Hen _ c' Hc'. rewrite Hc' in Cw. rewrite Ce in Hen.
      destruct (controlsRef s1) as [c1|]; [|contradiction].
      destruct Cw as (_ & Cw). rewrite Hen in Cw. tauto.
Qed.

(** The invariant, manual authority and the switched-off interaction only
    look at the wiring. *)
Lemma invariant_wiringOf (s s' : State) :
  wiringOf s' = wiringOf s ->
  (invariant s -> invariant s')
  /\ (manual s -> manual s')
  /\ (interactionOff s -> interactionOff s')
  /\ depsOf s' = depsOf s.
Proof.
  unfold wiringOf. intros H. inversion H as [[H1 H2 H3 H4 H5]].
  unfold invariant, listenersOk, depsNotAhead, depsInSync, manual,
    interactionOff, depsOf.
  rewrite H1, H2, H3, H4, H5. tauto.
Qed.

(** The commit that follows a handler re-establishes the invariant. *)
Lemma commit_invariant (s s1 : State) :
  invariant s -> sameWiring s s1 -> invariant (commit s1).
Proof.
  intros Hinv W. unfold commit.
  destruct (syncEffect_frame (orbitControlsEffect s1)) as (Hw & _).
  apply (invariant_wiringOf _ _ Hw).
  apply (orbitControlsEffect_invariant s); assumption.
Qed.

Lemma initial_invariant : invariant initialState.
Proof.
  split; [split|split; [|split]].
  - intros c H. discriminate H.
  - intros b H. discriminate H.
  - intros i e k H. discriminate H.
  - intros i e k H. discriminate H.
  - intros H. discriminate H.
Qed.

Lemma mount_invariant (p : LivePose) (s : State) :
  invariant s -> invariant (mount p s).
Proof.
  intros ((L1 & L2) & NA & SY & OFF).
  split; [split|split; [|split]]; simpl.
  - intros c Hc. inversion Hc; subst. left. reflexivity.
  - exact L2.
  - intros i e k Hi. eexists. split; [reflexivity|]. simpl.
    destruct (NA i e k Hi) as (c & Hc & Hle).
    unfold freshId. rewrite Hc. lia.
  - exact SY.
  - intros _ Hd. exfalso. unfold depsOf in Hd; simpl in Hd.
    destruct (NA (freshId s) (orbitControlsEnabled s) (kiosk s) Hd)
      as (c & Hc & Hle).
    unfold freshId in Hle. rewrite Hc in Hle. lia.
Qed.

Lemma setLive_invariant (p : LivePose) (s : State) :
  invariant s -> invariant (setLive p s).
Proof.
  intros (L & NA & SY & OFF).
  pose proof (sameWiring_setLive p s) as W.
  pose proof (listenersOk_sameWiring _ _ L W) as L1.
  destruct W as (E1 & E2 & W).
  split; [exact L1|]. split; [|split].
  - intros i e k Hi. rewrite E1 in Hi.
    destruct (NA i e k Hi) as (c & Hc & Hle). rewrite Hc in W.
    destruct (controlsRef (setLive p s)) as [c1|]; [|contradiction].
    exists c1. split; [reflexivity|]. destruct W as (-> & _). exact Hle.
  - intros i e k Hi. rewrite E1 in Hi. apply (SY i e k Hi).
  - intros Hen Hd c1 Hc1. rewrite Hc1 in W.
    destruct (controlsRef s) as [c|] eqn:Hc; [|contradiction].
    destruct W as (Wid & _ & W1 & W2 & W3 & W4).
    assert (Hoff : interactionOff s).
    { apply OFF; [exact Hen|]. rewrite <- E1, Hd.
      unfold depsOf. rewrite Hc, Hc1. simpl. rewrite Wid. reflexivity. }
    destruct (Hoff c Hc) as (? & ? & ? & ?).
    repeat split; congruence.
Qed.

Lemma step_invariant (e : Event) (s : State) :
  invariant s -> invariant (step e s).
Proof.
  intros H. rewrite step_handlerOf.
  destruct e;
    try (apply (commit_invariant s); [exact H|apply sameWiring_handlerOf]).
  - apply mount_invariant; exact H.
  - apply setLive_invariant; exact H.
  - destruct (changeQueuesUpdate (setLive p s)).
    + apply (commit_invariant s); [exact H|apply sameWiring_handlerOf].
    + apply setLive_invariant; exact H.
Qed.

Lemma reachable_invariant (s : State) : reachable s -> invariant s.
Proof.
  induction 1; [apply initial_invariant|apply step_invariant; assumption].
Qed.

Lemma reachable_run (trace : list Event) (s : State) :
  reachable s -> reachable (run trace s).
Proof.
  revert s. induction trace as [|e trace IH]; intros s H; [exact H|].
  simpl. apply IH. apply reachable_step. exact H.
Qed.

(** *** Manual authority *)











Lemma orbiting_reachable : reachable Scenarios.orbiting.
Proof. unfold Scenarios.orbiting. apply reachable_run. apply reachable_initial. Qed.


(** While the orbit controls have authority a [change] event does write
    the pose, and [toggleOrbitControls] gives that authority back after a
    manual edit. *)
Lemma orbiting_listens :
  orbitControlsEnabled Scenarios.orbiting = true
  /\ option_map listeners (controlsRef Scenarios.orbiting) = Some [true]
  /\ position (camera (sceneSettings (step (OrbitChange Scenarios.raised) Scenarios.orbiting)))
     = [0; 0.8; 7.96]
  /\ position (camera (sceneSettings
        (run [PositionEdit [1; 2; 3]; ToggleOrbit; OrbitChange Scenarios.raised]
             Scenarios.orbiting)))
     = [0; 0.8; 7.96].
Proof. repeat split. Qed.

(** *** Rounding *)

Lemma round2_two_decimals (val : R) : two_decimals (round2 val).
Proof. unfold two_decimals, round2, round. eexists. reflexivity. Qed.

(** Whatever goes through [updateCamera] is stored with two decimals. *)
Lemma updateCamera_rotation_rounded (u : CameraUpdates) (prev : SceneSettings) (v : list R) :
  u_rotation u = Some v ->
  rotation (camera (updateCamera u prev)) = map round2 v
  /\ Forall two_decimals (rotation (camera (updateCamera u prev))).
Proof.
  intros H. unfold updateCamera; simpl. rewrite H; simpl.
  split; [reflexivity|].
  clear H. induction v as [|a v IH]; simpl; constructor;
    [apply round2_two_decimals|exact IH].
Qed.

Lemma RAD2DEG_enclosure : 57.2956 < RAD2DEG < 57.2959.
Proof.
  unfold RAD2DEG. pose proof PI_enclosure as [Hl Hu].
  assert (Hq : 180 / PI * PI = 180) by (field; lra).
  assert (Hp : 0 < 180 / PI) by (apply Rdiv_lt_0_compat; lra).
  split; nra.
Qed.

Lemma tenth_of_radian_unrounded :
  ~ two_decimals (radToDeg (-0.1)) /\ round2 (radToDeg (-0.1)) = -5.73.
Proof.
  pose proof RAD2DEG_enclosure as [Hl Hu]. split.
  - intros [k Hk]. unfold radToDeg in Hk.
    assert (H1 : IZR (-573) < IZR k) by lra.
    assert (H2 : IZR k < IZR (-572)) by lra.
    apply lt_IZR in H1, H2. lia.
  - unfold round2, round, radToDeg.
    rewrite (Zfloor_eq (-573)); [lra|]. lra.
Qed.

(** C4, on a drag in the orbiting scenario that leaves the camera looking
    down by 0.1 radian.  The [change] listener stores the rotation
    [-0.1 * 180 / PI] degrees as it is; that number does not have two
    decimals, and [updateCamera] would have stored [-5.73]. *)
Theorem orbit_change_stores_unrounded_rotation :
  let s' := step (OrbitChange Scenarios.raised) Scenarios.orbiting in
  rotation (camera (sceneSettings s')) = [radToDeg (-0.1); radToDeg 0; radToDeg 0]
  /\ ~ two_decimals (radToDeg (-0.1))
  /\ round2 (radToDeg (-0.1)) = -5.73.
Proof.
  split; [reflexivity|]. apply tenth_of_radian_unrounded.
Qed.

(** The synchronisation effect stores the rotation in the same way: here
    the canvas mounts with the camera already looking down. *)
Lemma sync_stores_unrounded_rotation :
  rotation (camera (sceneSettings (run [Mount Scenarios.raised; Render] initialState)))
  = [radToDeg (-0.1); radToDeg 0; radToDeg 0].
Proof. reflexivity. Qed.

(** A rotation edit and the reset store rounded angles. *)
Lemma manual_rotation_rounded (v : list R) (s : State) :
  Forall two_decimals (rotation (camera (sceneSettings (handleCameraRotation v s)))).
Proof.
  unfold handleCameraRotation. simpl.
  apply (updateCamera_rotation_rounded (rotationUpdate v) (sceneSettings s) v).
  reflexivity.
Qed.

Lemma reset_rotation_rounded (r : Vector3) (s : State) (cam : PerspectiveCamera)
    (controls : OrbitControls) :
  cameraRef s = Some cam -> controlsRef s = Some controls ->
  Forall two_decimals (rotation (camera (sceneSettings (resetCameraToViewTarget r s)))).
Proof.
  intros Hc Ho. unfold resetCameraToViewTarget. rewrite Hc, Ho. simpl.
  repeat constructor; apply round2_two_decimals.
Qed.

(** *** The frame of the manual edits *)

Lemma updateCamera_position (v : list R) (prev : SceneSettings) :
  camera (updateCamera (positionUpdate v) prev)
  = mkCamera (map round2 v) (rotation (camera prev)) (zoom (camera prev))
             (target (camera prev)) (fov (camera prev))
             (near (camera prev)) (far (camera prev)).
Proof. reflexivity. Qed.

Lemma updateCamera_rotation (v : list R) (prev : SceneSettings) :
  camera (updateCamera (rotationUpdate v) prev)
  = mkCamera (position (camera prev)) (map round2 v) (zoom (camera prev))
             (target (camera prev)) (fov (camera prev))
             (near (camera prev)) (far (camera prev)).
Proof. reflexivity. Qed.

Lemma updateCamera_target (v : list R) (prev : SceneSettings) :
  camera (updateCamera (targetUpdate v) prev)
  = mkCamera (position (camera prev)) (rotation (camera prev)) (zoom (camera prev))
             v (fov (camera prev)) (near (camera prev)) (far (camera prev)).
Proof. reflexivity. Qed.







(** C8, on a target edit made while the orbit controls have authority.
    The handler moves the target of the controls to [(1, 0, 0)] and calls
    [controls.update()]; the controls re-aim the camera and dispatch
    [change] while the listener of the last render is still registered.
    The stored target is the edited one, and the stored rotation is
    rewritten from the camera's new rotation: it is no longer the rotation
    stored before the edit. *)
Theorem target_edit_rewrites_rotation :
  let s := Scenarios.orbiting in
  let s' := step (TargetEdit [1; 0; 0] (Some Scenarios.reaimed)) s in
  orbitControlsEnabled s = true
  /\ rotation (camera (sceneSettings s)) = [radToDeg 0; radToDeg 0; radToDeg 0]
  /\ orbitControlsEnabled s' = false
  /\ target (camera (sceneSettings s')) = [1; 0; 0]
  /\ rotation (camera (sceneSettings s'))
     = [radToDeg 0; radToDeg (- atan (1 / 8)); radToDeg 0]
  /\ rotation (camera (sceneSettings s')) <> rotation (camera (sceneSettings s)).
Proof.
  assert (Hr : rotation (camera (sceneSettings
                 (step (TargetEdit [1; 0; 0] (Some Scenarios.reaimed)) Scenarios.orbiting)))
               = [radToDeg 0; radToDeg (- atan (1 / 8)); radToDeg 0])
    by reflexivity.
  assert (Hr0 : rotation (camera (sceneSettings Scenarios.orbiting))
                = [radToDeg 0; radToDeg 0; radToDeg 0]) by reflexivity.
  cbv zeta.
  split; [reflexivity|]. split; [exact Hr0|]. split; [reflexivity|].
  split; [reflexivity|]. split; [exact Hr|].
  rewrite Hr, Hr0. intros H. inversion H as [H1].
  unfold radToDeg in H1. pose proof RAD2DEG_enclosure as [Hl _].
  assert (Ha : 0 < atan (1 / 8)).
  { rewrite <- atan_0. apply atan_increasing. lra. }
  nra.
Qed.

End AuthorityProperties.

(** ** Playback controls, seeding and teardown *)

Section PlaybackControlsProperties.
Import Three Playback PlaybackControls.

(** A commit at which only the animation-state effect is pending runs its
    body once. *)
Lemma commit_pending (s : State) :
  firstAnimation s = None -> animDeps s <> Some (depsOf s) ->
  commit s = mkState (currentAnimation s) (isPlaying s) (progress s) (animations s)
                     (actions (applyStatus s)) (actionsId s) (isInitialized s)
                     (Some (depsOf s)).
Proof.
  intros Hf Hd.
  assert (Hr : renderPass s =
               mkState (currentAnimation s) (isPlaying s) (progress s) (animations s)
                       (actions (applyStatus s)) (actionsId s) (isInitialized s)
                       (Some (depsOf s))).
  { unfold renderPass. rewrite Hf. unfold animationEffect.
    destruct (decide (animDeps s = Some (depsOf s))); [contradiction|].
    destruct (applyStatus_frame s) as [m ->]. reflexivity. }
  unfold commit. rewrite renderPass_committed; [exact Hr|].
  apply renderPass_idle. exact Hf.
Qed.

(** The body of the effect on a selection that resolves. *)
Lemma applyStatus_resolved (s : State) (n : string) (action : AnimationAction) :
  isInitialized s = true -> currentAnimation s = Some n -> n <> EmptyString ->
  actions s !! n = Some action ->
  actions (applyStatus s) =
    if decide (isPlaying s = PStr "playing") then <[n := play (setPaused false action)]> (actions s)
    else if decide (isPlaying s = PStr "paused") then <[n := setPaused true action]> (actions s)
    else if decide (isPlaying s = PStr "stopped") then <[n := reset (stop action)]> (actions s)
    else actions s.
Proof.
  intros Hi Hn Hne Hl. unfold applyStatus. rewrite Hi. simpl.
  rewrite (resolve_lookup s n Hn Hne), Hn, Hl.
  repeat (case_decide; [reflexivity|]). reflexivity.
Qed.

(** A status button as a pending commit. *)
Lemma setIsPlaying_pending (v : string) (s : State) :
  committed s -> isPlaying s <> PStr v ->
  let s0 := mkState (currentAnimation s) (PStr v) (progress s) (animations s)
                    (actions s) (actionsId s) (isInitialized s) (animDeps s) in
  setIsPlaying v s =
    mkState (currentAnimation s) (PStr v) (progress s) (animations s)
            (actions (applyStatus s0)) (actionsId s) (isInitialized s)
            (Some (depsOf s0)).
Proof.
  intros [Hd Hf] Hv s0. unfold setIsPlaying. fold s0.
  rewrite commit_pending; [reflexivity| |].
  - rewrite <- Hf. apply firstAnimation_ext; reflexivity.
  - simpl. rewrite Hd. unfold depsOf. simpl. congruence.
Qed.

(** X1.  The Play, Pause and Stop buttons, pressed in a settled state
    whose selected clip resolves and whose status differs from the
    button's.  Pause keeps the time of the selected action and pauses it;
    Stop rewinds it to time 0 and takes it out of the mixer; Play unpauses
    and schedules it at the time it has.  No other action is touched. *)
Theorem status_buttons :
  forall (s : State) (n : string) (action : AnimationAction),
    committed s -> isInitialized s = true ->
    currentAnimation s = Some n -> n <> EmptyString ->
    actions s !! n = Some action ->
    (isPlaying s <> PStr "paused" ->
     exists a', actions (setIsPlaying "paused" s) !! n = Some a'
       /\ time a' = time action /\ paused a' = true /\ isRunning a' = false
       /\ scheduled a' = scheduled action)
    /\ (isPlaying s <> PStr "stopped" ->
        exists a', actions (setIsPlaying "stopped" s) !! n = Some a'
          /\ time a' = 0 /\ scheduled a' = false /\ isRunning a' = false
          /\ paused a' = false)
    /\ (isPlaying s <> PStr "playing" ->
        exists a', actions (setIsPlaying "playing" s) !! n = Some a'
          /\ time a' = time action /\ paused a' = false /\ scheduled a' = true
          /\ isRunning a' = enabled action)
    /\ (forall v m, isPlaying s <> PStr v -> m <> n ->
        actions (setIsPlaying v s) !! m = actions s !! m).
Proof.
  intros s n action Hc Hi Hn Hne Hl.
  split; [|split; [|split]].
  - intros Hv. rewrite (setIsPlaying_pending _ s Hc Hv). simpl.
    rewrite (applyStatus_resolved _ n action) by (simpl; assumption). simpl.
    exists (setPaused true action). rewrite lookup_insert_eq.
    split; [reflexivity|]. unfold isRunning. simpl.
    destruct (enabled action); auto.
  - intros Hv. rewrite (setIsPlaying_pending _ s Hc Hv). simpl.
    rewrite (applyStatus_resolved _ n action) by (simpl; assumption). simpl.
    exists (reset (stop action)). rewrite lookup_insert_eq.
    split; [reflexivity|]. simpl. auto.
  - intros Hv. rewrite (setIsPlaying_pending _ s Hc Hv). simpl.
    rewrite (applyStatus_resolved _ n action) by (simpl; assumption). simpl.
    exists (play (setPaused false action)). rewrite lookup_insert_eq.
    split; [reflexivity|]. unfold isRunning. simpl.
    destruct (enabled action); auto.
  - intros v m Hv Hm. rewrite (setIsPlaying_pending _ s Hc Hv). simpl.
    rewrite (applyStatus_resolved _ n action) by (simpl; assumption). simpl.
    repeat case_decide; try reflexivity; rewrite lookup_insert_ne by congruence;
      reflexivity.
Qed.

(** Stop, pressed while clip [A] plays at time 2. *)
Lemma status_buttons_witness :
  exists a', actions (setIsPlaying "stopped" Scenarios.playingA) !! "A" = Some a'
    /\ time a' = 0 /\ scheduled a' = false /\ isRunning a' = false
    /\ paused a' = false.
Proof.
  destruct (status_buttons Scenarios.playingA "A"
              (mkAction Scenarios.clipA (4 * 0.5) false true true LoopRepeat))
    as (_ & H & _).
  - apply commit_is_committed.
  - vm_compute. reflexivity.
  - vm_compute. reflexivity.
  - discriminate.
  - vm_compute. reflexivity.
  - apply H. vm_compute. discriminate.
Defined.


Lemma applyStatus_unresolved (s : State) : resolve s = None -> applyStatus s = s.
Proof.
  intros H. unfold applyStatus. rewrite H.
  destruct (negb (isInitialized s)); [reflexivity|].
  destruct (currentAnimation s); reflexivity.
Qed.

Lemma applyStatus_other (s : State) :
  isPlaying s <> PStr "playing" -> isPlaying s <> PStr "paused" ->
  isPlaying s <> PStr "stopped" -> applyStatus s = s.
Proof.
  intros H1 H2 H3. unfold applyStatus.
  destruct (negb (isInitialized s)); [reflexivity|].
  destruct (currentAnimation s); [|reflexivity].
  destruct (resolve s); [|reflexivity].
  repeat (case_decide; [contradiction|]). reflexivity.
Qed.

(** Pressing the button of the current status changes nothing. *)
Lemma setIsPlaying_same (v : string) (s : State) :
  committed s -> isPlaying s = PStr v -> setIsPlaying v s = s.
Proof.
  intros Hc Hv. unfold setIsPlaying. rewrite <- Hv.
  replace (mkState _ _ _ _ _ _ _ _) with s by (destruct s; reflexivity).
  apply commit_committed. exact Hc.
Qed.

Lemma handleProgress_frame (p : R) (s : State) :
  exists m, handleProgress p s = withActions m s.
Proof.
  unfold handleProgress.
  destruct (currentAnimation s); [|exists (actions s); destruct s; reflexivity].
  destruct (resolve s); [|exists (actions s); destruct s; reflexivity].
  eexists; reflexivity.
Qed.

(** Scrubbing from a state without pending effects leaves none pending. *)
Lemma handleProgressChange_committed (p : R) (s : State) :
  committed s ->
  handleProgressChange p s =
    mkState (currentAnimation s) (isPlaying s) p (animations s)
            (actions (handleProgress p s)) (actionsId s) (isInitialized s)
            (animDeps s).
Proof.
  intros [Hd Hf]. unfold handleProgressChange. cbv zeta.
  destruct (handleProgress_frame p s) as [m ->]. simpl.
  apply commit_committed. split; [exact Hd|].
  rewrite <- Hf. apply firstAnimation_ext; reflexivity.
Qed.

Lemma handleProgress_resolved (p : R) (s : State) (n : string) (action : AnimationAction) :
  currentAnimation s = Some n -> n <> EmptyString -> actions s !! n = Some action ->
  actions (handleProgress p s) =
    <[n := mkAction (clip action) (duration (clip action) * p) (paused action)
                    (enabled action) (paused action || scheduled action) (loop action)]>
      (actions s).
Proof.
  intros Hn Hne Hl. unfold handleProgress.
  rewrite (resolve_lookup s n Hn Hne), Hn, Hl. simpl.
  destruct (paused action) eqn:E; simpl; [reflexivity|].
  unfold setTime, getClip. rewrite E. reflexivity.
Qed.

(** The first commit of an asset with clips, in a component that was not
    seeded yet. *)
Lemma commit_seeds (s : State) (first : AnimationClip) (rest : list AnimationClip) :
  animations s = first :: rest -> isInitialized s = false ->
  let n := if decide (name first = EmptyString) then "0" else name first in
  commit s = mkState (Some n) (PBool true) (progress s) (animations s)
                     (actions (playFirst n s)) (actionsId s) true
                     (Some (actionsId s, Some n, PBool true, true)).
Proof.
  intros Ha Hi n.
  assert (Hf : firstAnimation s = Some n).
  { unfold firstAnimation. rewrite Ha, Hi. reflexivity. }
  assert (Hp : exists m, playFirst n s = withActions m s).
  { unfold playFirst. destruct (actions s !! n); [eexists; reflexivity|].
    exists (actions s). destruct s; reflexivity. }
  assert (H1 : renderPass s =
               mkState (Some n) (PBool true) (progress s) (animations s)
                       (actions (playFirst n s)) (actionsId s) true
                       (Some (depsOf s))).
  { unfold renderPass. rewrite Hf. unfold animationEffect.
    destruct Hp as [m ->].
    destruct (decide (animDeps (withActions m s) = Some (depsOf (withActions m s))))
      as [E|E].
    - simpl in *. rewrite E. reflexivity.
    - unfold applyStatus. simpl. rewrite Hi. reflexivity. }
  unfold commit. rewrite H1.
  set (s1 := mkState _ _ _ _ _ _ _ _).
  assert (Hf1 : firstAnimation s1 = None).
  { unfold firstAnimation. simpl. destruct (animations s); reflexivity. }
  unfold renderPass. rewrite Hf1. unfold animationEffect.
  destruct (decide (animDeps s1 = Some (depsOf s1))) as [E|E].
  - exfalso. unfold s1, depsOf in E. simpl in E. congruence.
  - rewrite applyStatus_other by (unfold s1; simpl; discriminate).
    reflexivity.
Qed.

Lemma useAnimations_first (first : AnimationClip) (rest : list AnimationClip) :
  useAnimations (first :: rest) !! name first = Some (clipAction first).
Proof. unfold useAnimations. simpl. apply lookup_insert_eq. Qed.

Lemma useAnimations_absent (clips : list AnimationClip) (n : string) :
  (forall c, In c clips -> name c <> n) -> useAnimations clips !! n = None.
Proof.
  unfold useAnimations. induction clips as [|c clips IH]; intros H; simpl.
  - apply lookup_empty.
  - rewrite lookup_insert_ne by (apply H; left; reflexivity).
    apply IH. intros c' Hc'. apply H. right. exact Hc'.
Qed.

(** X2.  While the selected clip plays, Pause followed by Play restores
    the state exactly: the action, its time, and the bookkeeping of the
    effect. *)
Theorem pause_play_round_trip :
  forall (s : State) (n : string) (action : AnimationAction),
    committed s -> isInitialized s = true ->
    currentAnimation s = Some n -> n <> EmptyString ->
    actions s !! n = Some action ->
    isPlaying s = PStr "playing" ->
    paused action = false -> scheduled action = true ->
    setIsPlaying "playing" (setIsPlaying "paused" s) = s.
Proof.
  intros s n action Hc Hi Hn Hne Hl Hp Hpa Hsc.
  assert (H1 : setIsPlaying "paused" s =
               mkState (currentAnimation s) (PStr "paused") (progress s) (animations s)
                       (<[n := setPaused true action]> (actions s)) (actionsId s)
                       (isInitialized s)
                       (Some (actionsId s, currentAnimation s, PStr "paused", isInitialized s))).
  { rewrite setIsPlaying_pending by (rewrite ?Hp; congruence). cbv zeta.
    rewrite (applyStatus_resolved _ n action) by (simpl; assumption).
    reflexivity. }
  assert (Hc1 : committed (setIsPlaying "paused" s)) by apply commit_is_committed.
  rewrite H1 in *.
  set (s1 := mkState _ _ _ _ _ _ _ _) in *.
  rewrite setIsPlaying_pending by (trivial; unfold s1; simpl; congruence). cbv zeta.
  rewrite (applyStatus_resolved _ n (setPaused true action))
    by (unfold s1; simpl; auto; apply lookup_insert_eq).
  unfold s1; simpl.
  rewrite insert_insert_eq.
  replace (play (setPaused false (setPaused true action))) with action
    by (destruct action; simpl in *; subst; reflexivity).
  rewrite insert_id by exact Hl.
  destruct Hc as [Hd _]. unfold depsOf in *.
  destruct s; simpl in *. subst. reflexivity.
Qed.

(** Clip [A] plays at time 2. *)
Lemma pause_play_round_trip_witness :
  setIsPlaying "playing" (setIsPlaying "paused" Scenarios.playingA) = Scenarios.playingA.
Proof.
  apply (pause_play_round_trip Scenarios.playingA "A"
           (mkAction Scenarios.clipA (4 * 0.5) false true true LoopRepeat)).
  - apply commit_is_committed.
  - vm_compute. reflexivity.
  - vm_compute. reflexivity.
  - discriminate.
  - vm_compute. reflexivity.
  - vm_compute. reflexivity.
  - reflexivity.
  - reflexivity.
Defined.

(** X3.  Stop pressed while the status already is ['stopped'] changes
    nothing: after Stop, a scrub and Stop again, the action keeps the time
    of the scrub instead of being rewound. *)
Theorem stop_after_scrub_keeps_time :
  forall (s : State) (n : string) (action : AnimationAction) (p : R),
    committed s -> isPlaying s = PStr "stopped" ->
    currentAnimation s = Some n -> n <> EmptyString ->
    actions s !! n = Some action ->
    let s' := setIsPlaying "stopped" (handleProgressChange p s) in
    s' = handleProgressChange p s
    /\ exists a', actions s' !! n = Some a'
         /\ time a' = duration (getClip action) * p.
Proof.
  intros s n action p Hc Hp Hn Hne Hl s'.
  assert (Hs : s' = handleProgressChange p s).
  { unfold s'. apply setIsPlaying_same.
    - apply commit_is_committed.
    - rewrite handleProgressChange_committed by exact Hc. exact Hp. }
  split; [exact Hs|]. rewrite Hs.
  rewrite handleProgressChange_committed by exact Hc. simpl.
  rewrite (handleProgress_resolved p s n action Hn Hne Hl).
  eexists. rewrite lookup_insert_eq. split; reflexivity.
Qed.

(** Clip [A] of four seconds, stopped, scrubbed to the middle. *)
Lemma stop_after_scrub_keeps_time_witness :
  exists a',
    actions (setIsPlaying "stopped" (handleProgressChange 0.5 MoreScenarios.stoppedA)) !! "A"
      = Some a'
    /\ time a' = 4 * 0.5.
Proof.
  destruct (stop_after_scrub_keeps_time MoreScenarios.stoppedA "A"
              (mkAction Scenarios.clipA 0 false true false LoopRepeat) 0.5)
    as (_ & H).
  - apply commit_is_committed.
  - vm_compute. reflexivity.
  - vm_compute. reflexivity.
  - discriminate.
  - vm_compute. reflexivity.
  - exact H.
Defined.

(** X4.  Selecting the empty entry of the clip selector sets the status
    to ['stopped'] and leaves every action as it is (a running clip keeps
    running); [getDuration] is 0 afterwards. *)
Theorem no_animation_leaves_actions :
  forall (s : State),
    committed s ->
    let s' := selectClip EmptyString s in
    currentAnimation s' = Some EmptyString
    /\ isPlaying s' = PStr "stopped"
    /\ actions s' = actions s
    /\ getDuration s' = 0.
Proof.
  intros s [Hd Hf] s'.
  set (s0 := mkState (Some EmptyString) (PStr "stopped") (progress s) (animations s)
                     (actions s) (actionsId s) (isInitialized s) (animDeps s)).
  assert (Hs : s' = commit s0) by reflexivity.
  assert (Hf0 : firstAnimation s0 = None)
    by (rewrite <- Hf; apply firstAnimation_ext; reflexivity).
  assert (Hr : resolve s0 = None) by reflexivity.
  assert (H : currentAnimation (commit s0) = Some EmptyString
              /\ isPlaying (commit s0) = PStr "stopped"
              /\ actions (commit s0) = actions s).
  { destruct (decide (animDeps s0 = Some (depsOf s0))) as [E|E].
    - rewrite commit_committed by (split; assumption). auto.
    - rewrite commit_pending by assumption.
      rewrite applyStatus_unresolved by exact Hr. auto. }
  destruct H as (H1 & H2 & H3). rewrite Hs.
  split; [exact H1|]. split; [exact H2|]. split; [exact H3|].
  unfold getDuration, resolve. rewrite H1. reflexivity.
Qed.

(** Clip [A] plays when the empty entry is selected. *)
Lemma no_animation_leaves_actions_witness :
  isPlaying (selectClip EmptyString Scenarios.playingA) = PStr "stopped"
  /\ actions (selectClip EmptyString Scenarios.playingA) = actions Scenarios.playingA.
Proof.
  destruct (no_animation_leaves_actions Scenarios.playingA) as (_ & H1 & H2 & _).
  - apply commit_is_committed.
  - split; assumption.
Defined.



(** X6.  When the first clip has no name, the selection becomes ["0"].
    Unless another clip bears that name, nothing resolves: no action is
    started and [getDuration] is 0. *)
Theorem mount_unnamed_first_clip :
  forall (first : AnimationClip) (rest : list AnimationClip) (s : State),
    name first = EmptyString ->
    (forall c, In c rest -> name c <> "0") ->
    let s' := mountModel (first :: rest) s in
    currentAnimation s' = Some "0"
    /\ actions s' = useAnimations (first :: rest)
    /\ resolve s' = None
    /\ getDuration s' = 0.
Proof.
  intros first rest s He Hrest s'. unfold s', mountModel.
  rewrite (commit_seeds _ first rest) by reflexivity.
  destruct (decide (name first = EmptyString)); [|contradiction].
  assert (Hl : useAnimations (first :: rest) !! "0" = None).
  { apply useAnimations_absent. intros c [<-|Hc]; [rewrite He; discriminate|].
    apply Hrest. exact Hc. }
  unfold playFirst. simpl actions at 1. rewrite Hl.
  unfold getDuration, resolve. cbn [actions currentAnimation].
  destruct (decide ("0" = EmptyString)); [discriminate|].
  rewrite Hl. cbn [actions]. rewrite Hl. auto.
Qed.

(** An unnamed clip followed by clip [B]. *)
Lemma mount_unnamed_first_clip_witness :
  currentAnimation (mountModel [MoreScenarios.unnamed; Scenarios.clipB] initialParent)
  = Some "0"
  /\ resolve (mountModel [MoreScenarios.unnamed; Scenarios.clipB] initialParent) = None.
Proof.
  destruct (mount_unnamed_first_clip MoreScenarios.unnamed [Scenarios.clipB] initialParent)
    as (H1 & _ & H2 & _).
  - reflexivity.
  - intros c [<-|[]]. discriminate.
  - split; assumption.
Defined.

(** X7.  An asset without clips does not seed: the component stays
    uninitialised and the selection and the status are kept.  The first
    later asset with clips is then seeded although [Model] stayed
    mounted. *)
Theorem clipless_asset_defers_seeding :
  forall (first : AnimationClip) (rest : list AnimationClip) (s : State),
    name first <> EmptyString ->
    let s1 := mountModel [] s in
    let s2 := replaceAsset (first :: rest) s1 in
    (isInitialized s1 = false
     /\ currentAnimation s1 = currentAnimation s
     /\ isPlaying s1 = isPlaying s)
    /\ (isInitialized s2 = true
        /\ currentAnimation s2 = Some (name first)
        /\ actions s2 !! name first = Some (mkAction first 0 false true true LoopRepeat)).
Proof.
  intros first rest s Hne s1 s2.
  assert (H1 : s1 = mkState (currentAnimation s) (isPlaying s) (progress s) []
                            ∅ (S (actionsId s)) false
                            (Some (S (actionsId s), currentAnimation s, isPlaying s, false))).
  { unfold s1, mountModel. rewrite commit_pending by (reflexivity || discriminate).
    unfold applyStatus. reflexivity. }
  split; [rewrite H1; auto|].
  unfold s2, replaceAsset. rewrite (commit_seeds _ first rest) by (rewrite ?H1; reflexivity).
  destruct (decide (name first = EmptyString)); [contradiction|].
  simpl. split; [reflexivity|]. split; [reflexivity|].
  unfold playFirst. simpl actions. rewrite useAnimations_first.
  simpl. apply lookup_insert_eq.
Qed.

(** An asset without clips, replaced by the asset with clips [A] and [B]. *)
Lemma clipless_asset_defers_seeding_witness :
  currentAnimation
    (replaceAsset [Scenarios.clipA; Scenarios.clipB] (mountModel [] initialParent))
  = Some "A".
Proof.
  apply (clipless_asset_defers_seeding Scenarios.clipA [Scenarios.clipB] initialParent).
  discriminate.
Defined.

(** X8.  The wheel over the progress slider.  Without a selection it
    does nothing.  With one, the new progress lies in [[0, 1]], at most a
    hundredth from the old one, not above it when the wheel turns down;
    the selected action is moved to that share of its clip and keeps its
    paused flag.  Without a resolving action only the progress moves. *)
Theorem wheel_keeps_progress_in_range :
  forall (s : State) (deltaY : R),
    committed s ->
    let s' := handleWheel deltaY s in
    (resolve s = None -> actions s' = actions s)
    /\ (currentAnimation s = None \/ currentAnimation s = Some EmptyString -> s' = s)
    /\ (forall n, currentAnimation s = Some n -> n <> EmptyString ->
        0 <= progress s' <= 1
        /\ (0 <= progress s <= 1 -> Rabs (progress s' - progress s) <= 0.01)
        /\ (0 < deltaY -> 0 <= progress s -> progress s' <= progress s)
        /\ forall action, actions s !! n = Some action ->
             exists a', actions s' !! n = Some a'
               /\ time a' = duration (getClip action) * progress s'
               /\ paused a' = paused action).
Proof.
  intros s deltaY Hc s'.
  split; [|split].
  - intros Hr. unfold s', handleWheel.
    destruct (currentAnimation s) as [n|] eqn:Hn; [|reflexivity].
    destruct (decide (n = EmptyString)); [reflexivity|].
    cbv zeta. rewrite handleProgressChange_committed by exact Hc. simpl.
    unfold handleProgress. rewrite Hr, Hn. reflexivity.
  - intros [H|H]; unfold s', handleWheel; rewrite H; reflexivity.
  - intros n Hn Hne.
    assert (Hs : s' = handleProgressChange
                        (Rmax 0 (Rmin 1 (progress s + (if Rlt_dec 0 deltaY then -0.01 else 0.01)))) s).
    { unfold s', handleWheel. rewrite Hn.
      destruct (decide (n = EmptyString)); [contradiction|]. reflexivity. }
    rewrite Hs. rewrite handleProgressChange_committed by exact Hc. simpl.
    set (d := if Rlt_dec 0 deltaY then -0.01 else 0.01).
    assert (Hd : d = -0.01 \/ d = 0.01) by (unfold d; destruct (Rlt_dec 0 deltaY); auto).
    split; [|split; [|split]].
    + unfold Rmax, Rmin. repeat destruct Rle_dec; lra.
    + intros Hp. unfold Rmax, Rmin. apply Rabs_le.
      repeat destruct Rle_dec; lra.
    + intros Hy Hp. unfold d. destruct (Rlt_dec 0 deltaY); [|contradiction].
      unfold Rmax, Rmin. repeat destruct Rle_dec; lra.
    + intros action Hl.
      rewrite (handleProgress_resolved _ s n action Hn Hne Hl).
      eexists. rewrite lookup_insert_eq. split; [reflexivity|].
      split; reflexivity.
Qed.

(** The wheel is turned down while clip [A] plays at half its length. *)
Lemma wheel_keeps_progress_in_range_witness :
  0 <= progress (PlaybackControls.handleWheel 120 Scenarios.playingA) <= 1.
Proof.
  destruct (wheel_keeps_progress_in_range Scenarios.playingA 120) as (_ & _ & H).
  - apply commit_is_committed.
  - apply (H "A"); [vm_compute; reflexivity|discriminate].
Defined.


End PlaybackControlsProperties.

(** ** The wiring between the component and the controls *)

Section WiringProperties.
Import Three JsMath CameraAuthority CameraWiring.

(** The controls that a run of the orbit-controls effect leaves behind. *)
Lemma orbitControlsEffect_controls (s : State) (c : OrbitControls) :
  listenersOk s -> effectDeps s <> Some (depsOf s) -> controlsRef s = Some c ->
  controlsRef (orbitControlsEffect s)
  = Some (mkOrbitControls (ctl_id c) (orbitControlsEnabled s)
            (orbitControlsEnabled s) (orbitControlsEnabled s)
            (orbitControlsEnabled s && negb (kiosk s)) (ctl_target c)
            (if orbitControlsEnabled s then [true] else [])).
Proof.
  intros [L1 L2] Hd Hc. unfold orbitControlsEffect.
  destruct (decide (effectDeps s = Some (depsOf s))); [contradiction|].
  assert (Hr : controlsRef (runCleanup s) = Some (setListeners [] c)
               /\ orbitControlsEnabled (runCleanup s) = orbitControlsEnabled s
               /\ kiosk (runCleanup s) = kiosk s).
  { unfold runCleanup. destruct (effectCleanup s) as [b|] eqn:Ec; simpl.
    - rewrite Hc. simpl. destruct (L2 b eq_refl) as [-> _].
      destruct (L1 c Hc) as [->|[-> _]]; auto.
    - rewrite Hc. destruct (L1 c Hc) as [H|[_ H]]; [|discriminate].
      repeat split. f_equal. destruct c; simpl in *; subst; reflexivity. }
  destruct Hr as (Hr & He & Hk).
  unfold effectBody. rewrite Hr, He.
  destruct (orbitControlsEnabled s); simpl; rewrite Hr, ?Hk; reflexivity.
Qed.

(** The orbit-controls effect leaves the target of the controls alone. *)
Lemma orbitControlsEffect_target (s : State) :
  option_map ctl_target (controlsRef (orbitControlsEffect s))
  = option_map ctl_target (controlsRef s).
Proof.
  unfold orbitControlsEffect.
  destruct (decide (effectDeps s = Some (depsOf s))); [reflexivity|].
  unfold effectBody, runCleanup.
  destruct (effectCleanup s) eqn:Ec, (controlsRef s) eqn:Hc; simpl;
    rewrite ?Hc; simpl;
    destruct (orbitControlsEnabled s) eqn:?; simpl; rewrite ?Hc; reflexivity.
Qed.

(** No handler replaces the live objects or touches the bookkeeping of
    the synchronisation effect. *)
Lemma handlerOf_refs (e : Event) (s : State) :
  option_map cam_id (cameraRef (handlerOf e s)) = option_map cam_id (cameraRef s)
  /\ option_map ctl_id (controlsRef (handlerOf e s)) = option_map ctl_id (controlsRef s)
  /\ syncDeps (handlerOf e s) = syncDeps s.
Proof.
  assert (Hlive : forall p s0,
            option_map cam_id (cameraRef (setLive p s0)) = option_map cam_id (cameraRef s0)
            /\ option_map ctl_id (controlsRef (setLive p s0)) = option_map ctl_id (controlsRef s0)
            /\ syncDeps (setLive p s0) = syncDeps s0).
  { intros p s0. simpl. destruct (cameraRef s0), (controlsRef s0); auto. }
  assert (Hdisp : forall s0,
            option_map cam_id (cameraRef (dispatchChange s0)) = option_map cam_id (cameraRef s0)
            /\ option_map ctl_id (controlsRef (dispatchChange s0)) = option_map ctl_id (controlsRef s0)
            /\ syncDeps (dispatchChange s0) = syncDeps s0).
  { intros s0. destruct (dispatchChange_frame s0) as (Hw & Hc & Hd).
    unfold wiringOf in Hw. inversion Hw as [[H1 H2 H3 H4 H5]].
    rewrite Hc, H3, Hd. auto. }
  destruct e; try (repeat split; reflexivity).
  - apply Hlive.
  - destruct (Hdisp (setLive p s)) as (A & B & C).
    destruct (Hlive p s) as (A' & B' & C').
    simpl handlerOf. rewrite A, B, C. auto.
  - simpl. destruct (cameraRef s); auto.
  - simpl. destruct (cameraRef s); auto.
  - simpl handlerOf. unfold handleTargetChange. simpl.
    destruct (controlsRef s) as [c|] eqn:Hc; [|simpl; rewrite Hc; auto].
    destruct moved as [p|]; [|simpl; rewrite Hc; auto].
    set (s3 := withControls _ _).
    destruct (Hdisp (setLive p s3)) as (A & B & C).
    destruct (Hlive p s3) as (A' & B' & C').
    rewrite A, B, C, A', B', C'. unfold s3. simpl. rewrite Hc. auto.
  - simpl handlerOf. unfold resetCameraToViewTarget.
    destruct (cameraRef s) eqn:Hcam, (controlsRef s) eqn:Hc; simpl;
      rewrite ?Hcam, ?Hc; auto.
Qed.

Lemma wiring_initial : wiring initialState.
Proof.
  split; [|split; [|split]].
  - intros c H. discriminate H.
  - intros _ c H. discriminate H.
  - reflexivity.
  - intros i j H. discriminate H.
Qed.

Lemma wiring_mount (p : LivePose) (s : State) :
  invariant s -> wiring s -> wiring (mount p s).
Proof.
  intros (_ & NA & _) (W1 & W2 & W3 & W4).
  split; [|split; [|split]].
  - intros c Hc. simpl in Hc. inversion Hc; subst. repeat split.
  - intros Hd. exfalso. unfold upToDate, depsOf in Hd. simpl in Hd.
    destruct (NA _ _ _ Hd) as (c & Hc & Hle).
    unfold freshId in Hle. rewrite Hc in Hle. lia.
  - reflexivity.
  - intros i j Hs. simpl in Hs. eexists. split; [reflexivity|]. simpl.
    destruct (W4 i j Hs) as (c & Hc & Hle). unfold freshId. rewrite Hc. lia.
Qed.

Lemma wiring_setLive (p : LivePose) (s : State) : wiring s -> wiring (setLive p s).
Proof.
  intros (W1 & W2 & W3 & W4).
  unfold wiring, flagsMatch, upToDate, refsTogether, syncNotAhead, depsOf in *.
  simpl. destruct (controlsRef s) as [c|] eqn:Hc; simpl in *.
  - split; [|split; [|split]].
    + intros c' Hc'. inversion Hc'; subst. simpl. apply (W1 c eq_refl).
    + intros Hd c' Hc'. inversion Hc'; subst. simpl. apply (W2 Hd c eq_refl).
    + destruct (cameraRef s); simpl in *; exact W3.
    + intros i j Hs. destruct (W4 i j Hs) as (c' & Hc' & Hle).
      inversion Hc'; subst. eexists. split; [reflexivity|exact Hle].
  - split; [|split; [|split]]; try (intros; discriminate).
    + destruct (cameraRef s); simpl in *; exact W3.
    + intros i j Hs. destruct (W4 i j Hs) as (c' & Hc' & _). discriminate.
Qed.

(** The commit that follows a handler re-establishes the wiring. *)
Lemma wiring_commit (e : Event) (s : State) :
  invariant s -> wiring s -> wiring (commit (handlerOf e s)).
Proof.
  intros Hinv (W1 & W2 & W3 & W4).
  pose proof (sameWiring_handlerOf e s) as SW.
  destruct (handlerOf_refs e s) as (Rcam & Rctl & Rsync).
  set (s1 := handlerOf e s) in *.
  pose proof Hinv as (L & NA & SY & OFF).
  pose proof (listenersOk_sameWiring s s1 L SW) as L1.
  unfold commit.
  destruct (syncEffect_frame (orbitControlsEffect s1)) as (Hw & Hcam & Hsd & _).
  destruct (orbitControlsEffect_frame s1) as (_ & Fe & Fk & Fcam & _ & Fid).
  set (s2 := orbitControlsEffect s1) in *.
  unfold wiringOf in Hw. inversion Hw as [[Hw1 Hw2 Hw3 Hw4 Hw5]].
  assert (W12 : (forall c, controlsRef s2 = Some c -> flagsMatch s2 c)
                /\ (upToDate s2 -> forall c, controlsRef s2 = Some c ->
                    enabled c = orbitControlsEnabled s2
                    /\ (orbitControlsEnabled s2 = true -> listeners c = [true]))).
  { destruct (decide (effectDeps s1 = Some (depsOf s1))) as [Hd|Hd].
    - assert (E2 : s2 = s1).
      { unfold s2, orbitControlsEffect.
        destruct (decide (effectDeps s1 = Some (depsOf s1))); [reflexivity|contradiction]. }
      rewrite E2. destruct SW as (E1 & _ & SW).
      rewrite E1 in Hd.
      destruct (effectDeps s) as [[[i e0] k]|] eqn:Hs; [|discriminate].
      destruct (SY i e0 k Hs) as [He Hk].
      unfold depsOf in Hd. inversion Hd as [[Hi' He' Hk']].
      assert (Hup : upToDate s).
      { unfold upToDate, depsOf. rewrite Hs, Hi', <- Rctl, <- He, <- Hk. reflexivity. }
      unfold flagsMatch.
      split.
      + intros c1 Hc1. rewrite Hc1 in SW.
        destruct (controlsRef s) as [c|] eqn:Hc; [|contradiction].
        destruct SW as (_ & _ & _ & S2 & S3 & S4).
        destruct (W1 c eq_refl) as (F1 & F2 & F3).
        rewrite S2, S3, S4, <- He', <- Hk', He, Hk. auto.
      + intros _ c1 Hc1. rewrite Hc1 in SW.
        destruct (controlsRef s) as [c|] eqn:Hc; [|contradiction].
        destruct SW as (_ & S0 & S1 & _).
        destruct (W2 Hup c eq_refl) as (G1 & G2).
        rewrite S0, S1, <- He', He. auto.
    - split.
      + intros c2 Hc2. unfold flagsMatch. rewrite Fe, Fk.
        destruct (controlsRef s1) as [c1|] eqn:Hc1.
        * unfold s2 in Hc2.
          rewrite (orbitControlsEffect_controls s1 c1 L1 Hd Hc1) in Hc2.
          inversion Hc2; subst. simpl. auto.
        * rewrite Hc2 in Fid. discriminate Fid.
      + intros _ c2 Hc2. rewrite Fe.
        destruct (controlsRef s1) as [c1|] eqn:Hc1.
        * unfold s2 in Hc2.
          rewrite (orbitControlsEffect_controls s1 c1 L1 Hd Hc1) in Hc2.
          inversion Hc2; subst. simpl. split; [reflexivity|].
          intros ->. reflexivity.
        * rewrite Hc2 in Fid. discriminate Fid. }
  destruct W12 as (W1' & W2').
  unfold wiring, flagsMatch, upToDate, refsTogether, syncNotAhead, depsOf in *.
  rewrite Hw1, Hw2, Hw3, Hw4, Hcam, Hsd.
  split; [exact W1'|]. split; [exact W2'|]. split.
  - rewrite Fcam, Fid, Rcam, Rctl. exact W3.
  - intros i j Hs. unfold syncDepsOf in Hs. inversion Hs as [[Hi Hj]].
    destruct (controlsRef s2) as [c2|]; [|discriminate].
    exists c2. split; [reflexivity|]. simpl in Hj. inversion Hj. lia.
Qed.

Lemma wiring_step (e : Event) (s : State) :
  invariant s -> wiring s -> wiring (step e s).
Proof.
  intros Hinv W. rewrite step_handlerOf.
  destruct e; try (apply wiring_commit; assumption).
  - apply wiring_mount; assumption.
  - apply wiring_setLive; assumption.
  - destruct (changeQueuesUpdate (setLive p s)).
    + apply wiring_commit; assumption.
    + apply wiring_setLive; assumption.
Qed.

Lemma reachable_wiring (s : State) : reachable s -> wiring s.
Proof.
  induction 1 as [|e s Hr IH]; [apply wiring_initial|].
  apply wiring_step; [apply reachable_invariant; exact Hr|exact IH].
Qed.



Lemma mirrorLive_mirrored (cam : PerspectiveCamera) (c : OrbitControls) (prev : SceneSettings) :
  camera (mirrorLive cam c prev)
  = mirrored (mkLivePose (cam_position cam) (cam_rotation cam) (ctl_target c)) (camera prev).
Proof. reflexivity. Qed.

(** The synchronisation effect either leaves the pose alone or mirrors
    the live objects. *)
Lemma syncEffect_settings (s : State) :
  sceneSettings (syncEffect s) = sceneSettings s
  \/ exists cam c, cameraRef s = Some cam /\ controlsRef s = Some c
       /\ sceneSettings (syncEffect s) = mirrorLive cam c (sceneSettings s).
Proof.
  unfold syncEffect.
  destruct (decide (syncDeps s = Some (syncDepsOf s))); [left; reflexivity|].
  destruct (cameraRef s) as [cam|], (controlsRef s) as [c|]; try (left; reflexivity).
  right. exists cam, c. auto.
Qed.







(** X10.  In every state the component can reach, the controls mirror who
    has authority: panning and zooming are enabled exactly when
    [orbitControlsEnabled] holds, rotating exactly when it holds outside
    kiosk mode.  Once the orbit-controls effect has seen the current
    dependencies, the [enabled] flag agrees too, and the controls carry one
    [change] listener under orbit authority and none otherwise. *)
Theorem controls_follow_authority :
  forall (s : State) (c : OrbitControls),
    reachable s -> controlsRef s = Some c ->
    enablePan c = orbitControlsEnabled s
    /\ enableZoom c = orbitControlsEnabled s
    /\ enableRotate c = (orbitControlsEnabled s && negb (kiosk s))
    /\ (upToDate s ->
        enabled c = orbitControlsEnabled s
        /\ listeners c = if orbitControlsEnabled s then [true] else []).
Proof.
  intros s c Hr Hc.
  destruct (reachable_wiring s Hr) as (W1 & W2 & _).
  destruct (reachable_invariant s Hr) as ((L1 & L2) & _).
  destruct (W1 c Hc) as (F1 & F2 & F3).
  split; [exact F1|]. split; [exact F2|]. split; [exact F3|].
  intros Hup. destruct (W2 Hup c Hc) as (G1 & G2).
  split; [exact G1|].
  destruct (orbitControlsEnabled s) eqn:Hen; [apply G2; reflexivity|].
  destruct (L1 c Hc) as [H|[_ H]]; [exact H|].
  destruct (L2 true H) as (_ & id & k & Hd).
  unfold upToDate, depsOf in Hup. rewrite Hen in Hup. congruence.
Qed.

(** The controls of the orbiting scenario. *)
Lemma controls_follow_authority_witness :
  enablePan (mkOrbitControls 0 true true true true Scenarios.origin [true])
  = orbitControlsEnabled Scenarios.orbiting.
Proof.
  destruct (controls_follow_authority Scenarios.orbiting
              (mkOrbitControls 0 true true true true Scenarios.origin [true])
              orbiting_reachable) as (H & _).
  - reflexivity.
  - exact H.
Defined.

(** X11.  Under orbit authority, with the effect up to date, a [change]
    event copies the live pose into [sceneSettings.camera]: position and
    target as they are, the rotation converted to degrees; [zoom], [fov],
    [near] and [far] are kept. *)
Theorem orbit_change_mirrors_pose :
  forall (s : State) (c : OrbitControls) (p : LivePose),
    reachable s -> upToDate s -> orbitControlsEnabled s = true ->
    controlsRef s = Some c ->
    camera (sceneSettings (step (OrbitChange p) s))
    = mirrored p (camera (sceneSettings s)).
Proof.
  intros s c p Hr Hup Hen Hc.
  destruct (reachable_wiring s Hr) as (_ & W2 & W3 & _).
  destruct (W2 Hup c Hc) as (_ & Hl). specialize (Hl Hen).
  unfold refsTogether in W3. rewrite Hc in W3.
  destruct (cameraRef s) as [cam|] eqn:Hcam; [|discriminate].
  assert (Hq : changeQueuesUpdate (setLive p s) = true).
  { unfold changeQueuesUpdate. simpl. rewrite Hcam, Hc. simpl. rewrite Hl. reflexivity. }
  simpl step. rewrite Hq.
  assert (Hd : dispatchChange (setLive p s)
               = withSettings
                   (mirrorLive (setRotation (live_rotation p) (setPosition (live_position p) cam))
                               (setTarget (live_target p) c))
                   (setLive p s)).
  { unfold dispatchChange. simpl. rewrite Hc. simpl. rewrite Hl. simpl.
    unfold handleChange. simpl. rewrite Hcam, Hc. reflexivity. }
  rewrite Hd. set (s1 := withSettings _ _).
  unfold commit.
  destruct (orbitControlsEffect_frame s1) as (Fs & _ & _ & Fcam & _).
  pose proof (orbitControlsEffect_target s1) as Ft.
  destruct (syncEffect_settings (orbitControlsEffect s1)) as [E|(cam2 & c2 & E1 & E2 & E)];
    rewrite E.
  - rewrite Fs. reflexivity.
  - rewrite Fs. rewrite E1 in Fcam. rewrite E2 in Ft.
    unfold s1 in Fcam, Ft. simpl in Fcam, Ft. rewrite Hcam in Fcam. rewrite Hc in Ft.
    simpl in Fcam, Ft. inversion Fcam; subst cam2. inversion Ft as [Ht].
    rewrite mirrorLive_mirrored. simpl. rewrite Ht. reflexivity.
Qed.

(** The drag that raises the camera, in the orbiting scenario. *)
Lemma orbit_change_mirrors_pose_witness :
  camera (sceneSettings (step (OrbitChange Scenarios.raised) Scenarios.orbiting))
  = mirrored Scenarios.raised (camera (sceneSettings Scenarios.orbiting)).
Proof.
  apply (orbit_change_mirrors_pose Scenarios.orbiting
           (mkOrbitControls 0 true true true true Scenarios.origin [true])
           Scenarios.raised orbiting_reachable); reflexivity.
Defined.









(** X16.  The first commit after the canvas mounts copies the live pose
    into [sceneSettings.camera], the rotation converted to degrees and not
    rounded, whoever has authority. *)
Theorem mount_render_mirrors_pose :
  forall (s : State) (p : LivePose),
    reachable s ->
    camera (sceneSettings (step Render (step (Mount p) s)))
    = mirrored p (camera (sceneSettings s)).
Proof.
  intros s p Hr.
  destruct (reachable_wiring s Hr) as (_ & _ & _ & W4).
  simpl step. set (s1 := mount p s). unfold commit.
  destruct (orbitControlsEffect_frame s1) as (Fs & _ & _ & Fcam & Fsd & Fid).
  pose proof (orbitControlsEffect_target s1) as Ft.
  set (s2 := orbitControlsEffect s1) in *.
  unfold syncEffect.
  destruct (decide (syncDeps s2 = Some (syncDepsOf s2))) as [E|E].
  - exfalso. unfold syncDepsOf in E. rewrite Fsd, Fcam, Fid in E.
    unfold s1 in E. simpl in E.
    destruct (W4 _ _ E) as (c & Hc & Hle).
    unfold freshId in Hle. rewrite Hc in Hle. lia.
  - unfold s1 in Fcam, Ft, Fid. simpl in Fcam, Ft, Fid.
    rewrite Fcam.
    destruct (controlsRef s2) as [c2|]; [|discriminate].
    simpl. rewrite Fs. simpl in Ft. inversion Ft as [Ht].
    unfold mirrorLive, mirrored. simpl. rewrite Ht. reflexivity.
Qed.

(** The canvas mounts again after a position edit established manual
    authority. *)
Lemma mount_render_mirrors_pose_witness :
  camera (sceneSettings (step Render (step (Mount Scenarios.raised) MoreScenarios.edited)))
  = mirrored Scenarios.raised (camera (sceneSettings MoreScenarios.edited)).
Proof.
  apply (mount_render_mirrors_pose MoreScenarios.edited Scenarios.raised).
  apply reachable_step, orbiting_reachable.
Defined.

End WiringProperties.

(** ** The geometry of the loaded pose *)

Section FramingGeometry.
Import Three JsMath SceneInspector.

Lemma getSize_nonneg (box : Box3) :
  0 <= x (getSize box) /\ 0 <= y (getSize box) /\ 0 <= z (getSize box).
Proof.
  unfold getSize, isEmpty.
  destruct (Rlt_dec (x (bmax box)) (x (bmin box)));
    destruct (Rlt_dec (y (bmax box)) (y (bmin box)));
    destruct (Rlt_dec (z (bmax box)) (z (bmin box))); simpl; lra.
Qed.

Lemma maxDim_nonneg (box : Box3) : 0 <= maxDim box.
Proof.
  unfold maxDim. destruct (getSize_nonneg box) as (Hx & Hy & Hz).
  cbv zeta. unfold Rmax. repeat destruct Rle_dec; lra.
Qed.

Lemma distance_nonneg (box : Box3) : 0 <= distance box.
Proof.
  unfold distance, cameraDistance.
  pose proof (maxDim_nonneg box). pose proof tan_half_fov_pos as Ht.
  apply Rmult_le_pos; [|lra].
  apply Rmult_le_pos; [assumption|].
  left. apply Rinv_0_lt_compat. exact Ht.
Qed.

(** X17.  The geometry of the framing branch, for any bounding box.  The
    largest extent is never negative; the camera is placed at the framing
    distance from its target, the origin, at half that distance above the
    ground plane and on the diagonal [x = -z]; at that distance the
    vertical field of view spans 1.2 times the largest extent; and the
    scene root is moved by minus the centre of the box. *)
Theorem framing_geometry :
  forall (clips : list AnimationClip) (box : Box3),
    let settings := camera (fst (inspect (mkGLTF [] clips box))) in
    let eye := CameraAuthority.vector3Of (position settings) in
    let aim := CameraAuthority.vector3Of (target settings) in
    0 <= maxDim box
    /\ distanceTo eye aim = distance box
    /\ 2 * distance box * tan (degToRad (fov settings / 2)) = 1.2 * maxDim box
    /\ y eye = distance box / 2
    /\ x eye = - z eye
    /\ snd (inspect (mkGLTF [] clips box))
       = Some (mkVector3 (- x (getCenter box)) (- y (getCenter box)) (- z (getCenter box))).
Proof.
  intros clips box settings eye aim.
  assert (Hp : position settings
               = [distance box * (sqrt 3 / 2) * (-1 / sqrt 2);
                  distance box * (1 / 2);
                  distance box * (sqrt 3 / 2) * (1 / sqrt 2)])
    by (unfold settings; rewrite inspect_no_camera; apply framed_position).
  assert (H3 : sqrt 3 * sqrt 3 = 3) by (apply sqrt_sqrt; lra).
  assert (H2 : sqrt 2 * sqrt 2 = 2) by (apply sqrt_sqrt; lra).
  assert (P2 : 0 < sqrt 2) by (apply sqrt_lt_R0; lra).
  pose proof (distance_nonneg box) as Hd.
  split; [apply maxDim_nonneg|]. split; [|split; [|split; [|split]]].
  - unfold eye, aim. rewrite Hp.
    replace (target settings) with [0; 0; 0] by reflexivity.
    unfold distanceTo, CameraAuthority.vector3Of, sub. simpl.
    set (d := distance box) in *.
    replace (_ + _ + _) with (d * d).
    + apply sqrt_square. exact Hd.
    + field_simplify; [|lra]. rewrite !pow2_sqrt by lra. field.
  - replace (fov settings) with 50 by reflexivity.
    rewrite distance_closed_form.
    pose proof tan_half_fov as Ht.
    assert (Ht' : 0 < tan (degToRad (50 / 2))).
    { unfold degToRad, DEG2RAD.
      replace (50 / 2 * (PI / 180)) with (50 * PI / 360) by field. lra. }
    field. lra.
  - unfold eye. rewrite Hp. simpl. lra.
  - unfold eye. rewrite Hp. simpl. field. lra.
  - reflexivity.
Qed.

(** X18.  The framing pose depends on the size of the bounding box only,
    not on where the box sits, and the framing distance grows in
    proportion to the size. *)
Theorem framing_ignores_centre :
  forall (c c' s : Vector3) (k : R),
    0 <= x s -> 0 <= y s -> 0 <= z s -> 0 <= k ->
    framedCamera (boxAround c s) = framedCamera (boxAround c' s)
    /\ distance (boxAround c (mkVector3 (k * x s) (k * y s) (k * z s)))
       = k * distance (boxAround c s).
Proof.
  intros c c' s k Hx Hy Hz Hk.
  assert (Hm : forall c0, maxDim (boxAround c0 s) = Rmax (Rmax (2 * x s) (2 * y s)) (2 * z s))
    by (intros; apply maxDim_boxAround; assumption).
  split.
  - unfold framedCamera, distance, cameraDistance. rewrite (Hm c), (Hm c'). reflexivity.
  - unfold distance, cameraDistance. rewrite (Hm c).
    rewrite maxDim_boxAround by (simpl; apply Rmult_le_pos; assumption). simpl.
    replace (Rmax (Rmax (2 * (k * x s)) (2 * (k * y s))) (2 * (k * z s)))
      with (k * Rmax (Rmax (2 * x s) (2 * y s)) (2 * z s)).
    + pose proof tan_half_fov_pos. field. lra.
    + replace (2 * (k * x s)) with (k * (2 * x s)) by ring.
      replace (2 * (k * y s)) with (k * (2 * y s)) by ring.
      replace (2 * (k * z s)) with (k * (2 * z s)) by ring.
      rewrite (RmaxRmult (2 * x s) (2 * y s) k Hk).
      rewrite (RmaxRmult _ (2 * z s) k Hk). reflexivity.
Qed.

(** The unit cube around the origin and around [(0, 1, 0)], and the cube
    twice as large. *)
Lemma framing_ignores_centre_witness :
  framedCamera (boxAround Scenarios.origin (mkVector3 1 1 1))
  = framedCamera (boxAround (mkVector3 0 1 0) (mkVector3 1 1 1))
  /\ distance (boxAround Scenarios.origin (mkVector3 (2 * 1) (2 * 1) (2 * 1)))
     = 2 * distance (boxAround Scenarios.origin (mkVector3 1 1 1)).
Proof.
  apply (framing_ignores_centre Scenarios.origin (mkVector3 0 1 0) (mkVector3 1 1 1) 2);
    simpl; lra.
Defined.

(** X19.  With an authored camera whose world orientation is a unit
    quaternion, the target handed to the viewer lies exactly one unit in
    front of the camera position. *)
Theorem authored_target_one_unit_ahead :
  forall (cam : CameraNode) (rest : list CameraNode)
         (clips : list AnimationClip) (box : Box3),
    let q := worldQuaternion cam in
    qx q * qx q + qy q * qy q + qz q * qz q + qw q * qw q = 1 ->
    let settings := camera (fst (inspect (mkGLTF (cam :: rest) clips box))) in
    distanceTo (CameraAuthority.vector3Of (target settings))
               (CameraAuthority.vector3Of (position settings)) = 1.
Proof.
  intros cam rest clips box q Hq settings.
  unfold settings. simpl. unfold authoredCamera. simpl.
  unfold distanceTo, CameraAuthority.vector3Of, sub. simpl. fold q.
  set (a := qx q) in *. set (b := qy q) in *.
  set (c := qz q) in *. set (w := qw q) in *.
  match goal with |- sqrt ?e = 1 =>
    replace e with (1 + 4 * (a * a + b * b) * (a * a + b * b + c * c + w * w - 1)) by ring
  end.
  rewrite Hq. replace (1 + 4 * (a * a + b * b) * (1 - 1)) with 1 by ring.
  apply sqrt_1.
Qed.

(** A camera at [(2, 1, 3)] that looks backwards. *)
Lemma authored_target_one_unit_ahead_witness :
  let settings :=
    camera (fst (inspect (mkGLTF [MoreScenarios.backCamera] [] (sceneBox MoreScenarios.cube)))) in
  distanceTo (CameraAuthority.vector3Of (target settings))
             (CameraAuthority.vector3Of (position settings)) = 1.
Proof.
  apply (authored_target_one_unit_ahead MoreScenarios.backCamera [] []
           (sceneBox MoreScenarios.cube)).
  simpl. lra.
Defined.

End FramingGeometry.

(** ** The load guard of [Model] *)

Section LoaderProperties.
Import SceneInspector ModelLoader.

Lemma renders_loaded (rs : list Render) (s : State) :
  hasLoaded s = true ->
  hasLoaded (renders rs s) = true
  /\ onLoadCalls (renders rs s)
     = onLoadCalls s ++ map (fun r => fst (inspect (gltf r))) (filter urlChanged rs)
  /\ isVisible (renders rs s)
     = (isVisible s && forallb (fun r => negb (urlChanged r)) rs)%bool.
Proof.
  revert s. induction rs as [|r rs IH]; intros s Hs; simpl.
  - rewrite app_nil_r, andb_true_r. auto.
  - assert (H1 : hasLoaded (render r s) = true
                 /\ onLoadCalls (render r s)
                    = onLoadCalls s ++ (if urlChanged r then [fst (inspect (gltf r))] else [])
                 /\ isVisible (render r s) = (isVisible s && negb (urlChanged r))%bool).
    { unfold render, loadEffect, resetEffect.
      destruct (urlChanged r); simpl.
      - rewrite andb_false_r. auto.
      - rewrite andb_true_r. destruct (onLoadChanged r); rewrite ?Hs, app_nil_r; auto. }
    destruct H1 as (A & B & C).
    destruct (IH (render r s) A) as (A' & B' & C').
    split; [exact A'|]. split.
    + rewrite B', B. unfold filter. simpl.
      destruct (urlChanged r); simpl; rewrite <- app_assoc; reflexivity.
    + rewrite C', C. rewrite andb_assoc. reflexivity.
Qed.

(** X20.  From the mount of [Model] on, through any sequence of renders,
    the asset is inspected and [onLoad] scheduled once at the mount and
    once for each change of [modelUrl], however often the parent passes a
    new [onLoad].  The model is hidden until [onComplete] is called, and a
    visible model stays visible exactly until [modelUrl] changes. *)
Theorem load_runs_once_per_url :
  forall (g : GLTF) (rs : list Render),
    let s := renders rs (mount g) in
    hasLoaded s = true
    /\ onLoadCalls s
       = fst (inspect g) :: map (fun r => fst (inspect (gltf r))) (filter urlChanged rs)
    /\ isVisible s = false
    /\ isVisible (renders rs (onComplete (mount g)))
       = forallb (fun r => negb (urlChanged r)) rs.
Proof.
  intros g rs s.
  destruct (renders_loaded rs (mount g) eq_refl) as (A & B & C).
  destruct (renders_loaded rs (onComplete (mount g)) eq_refl) as (_ & _ & C').
  split; [exact A|]. split; [exact B|]. split; [exact C|exact C'].
Qed.

End LoaderProperties.

(** ** Dragging a numeric field *)

Section NumericInputProperties.
Import NumericInput.

Lemma dragMove_listening (parent : R -> R) (s : State) (clientX : R) :
  (forall r, parent r = r) ->
  listeners s = 1%nat -> dragging (dragStateRef s) = true ->
  currentValue (dragStateRef s) = value s ->
  let s' := dragMove parent s clientX in
  listeners s' = 1%nat
  /\ dragging (dragStateRef s') = true
  /\ currentValue (dragStateRef s') = value s'
  /\ step s' = step s
  /\ lastX (dragStateRef s') = clientX
  /\ value s' = value s + (clientX - lastX (dragStateRef s)) * step s * 0.1
  /\ reported s' = reported s ++ [value s'].
Proof.
  intros Hp Hl Hd Hv s'.
  set (nv := currentValue (dragStateRef s)
             - (lastX (dragStateRef s) - clientX) * step s * 0.1).
  assert (H1 : mouseMove clientX s =
               mkState (value s) (step s) (isDragging s) (isActive s) (isFocused s)
                 (mkDragState (startX (dragStateRef s)) (startValue (dragStateRef s))
                    true clientX nv)
                 1 (reported s ++ [nv])).
  { unfold mouseMove. rewrite Hl. simpl. unfold handleMouseMove.
    rewrite Hd, Hl. reflexivity. }
  assert (Hs' : s' = receiveValue nv (mouseMove clientX s)).
  { unfold s', dragMove. cbv zeta. rewrite H1. cbn [reported].
    rewrite drop_app_length. simpl. rewrite Hp. reflexivity. }
  rewrite Hs', H1. unfold receiveValue. cbn [value dragStateRef].
  assert (Hnv : nv = value s + (clientX - lastX (dragStateRef s)) * step s * 0.1)
    by (unfold nv; rewrite Hv; ring).
  destruct (Req_dec_T nv (value s)) as [E|E]; simpl.
  - repeat split; simpl; auto; congruence.
  - repeat split; simpl; auto.
Qed.

Lemma last_cons (xs : list R) (x d : R) : List.last (x :: xs) d = List.last xs x.
Proof.
  revert x d. induction xs as [|y xs IH]; intros x d; [reflexivity|].
  change (List.last (x :: y :: xs) d) with (List.last (y :: xs) d).
  rewrite !IH. reflexivity.
Qed.

Lemma drag_listening (parent : R -> R) (xs : list R) (s : State) :
  (forall r, parent r = r) ->
  listeners s = 1%nat -> dragging (dragStateRef s) = true ->
  currentValue (dragStateRef s) = value s ->
  let s' := drag parent xs s in
  listeners s' = 1%nat
  /\ dragging (dragStateRef s') = true
  /\ step s' = step s
  /\ value s' = value s
                + (List.last xs (lastX (dragStateRef s)) - lastX (dragStateRef s)) * step s * 0.1
  /\ length (reported s') = (length (reported s) + length xs)%nat
  /\ (xs <> [] -> exists ys, reported s' = ys ++ [value s']).
Proof.
  intros Hp. revert s. induction xs as [|x xs IH]; intros s Hl Hd Hv.
  - simpl. split; [exact Hl|]. split; [exact Hd|]. split; [reflexivity|].
    split; [lra|]. split; [lia|]. intros H. contradiction.
  - destruct (dragMove_listening parent s x Hp Hl Hd Hv)
      as (A1 & A2 & A3 & A4 & A5 & A6 & A7).
    destruct (IH (dragMove parent s x) A1 A2 A3) as (B1 & B2 & B3 & B4 & B5 & B6).
    change (drag parent (x :: xs) s) with (drag parent xs (dragMove parent s x)).
    cbv zeta. split; [exact B1|]. split; [exact B2|]. split; [congruence|].
    split; [|split].
    + rewrite B4, A6, A5, A4.
      rewrite last_cons. ring.
    + rewrite B5, A7, length_app. simpl. lia.
    + intros _. destruct xs as [|x' xs'].
      * simpl. exists (reported s). exact A7.
      * apply B6. discriminate.
Qed.

(** X21.  A drag on the label of a numeric field whose parent stores the
    reported values as they are.  The value at the end is the value at the
    mouse-down plus a tenth of [step] per pixel between the first and the
    last pointer position, whatever the path in between; each move reports
    one value, the last one being the final value; and after the mouse-up
    nothing listens any more. *)
Theorem drag_reports_displacement :
  forall (parent : R -> R) (s0 : State) (x0 : R) (xs : list R),
    (forall r, parent r = r) -> listeners s0 = 0%nat ->
    let s := drag parent xs (handleMouseDown x0 s0) in
    value s = value s0 + (List.last xs x0 - x0) * step s0 * 0.1
    /\ length (reported s) = (length (reported s0) + length xs)%nat
    /\ (xs <> [] -> exists ys, reported s = ys ++ [value s])
    /\ listeners (mouseUp s) = 0%nat
    /\ isDragging (mouseUp s) = false
    /\ value (mouseUp s) = value s
    /\ forall x, mouseMove x (mouseUp s) = mouseUp s.
Proof.
  intros parent s0 x0 xs Hp Hl s.
  destruct (drag_listening parent xs (handleMouseDown x0 s0) Hp)
    as (B1 & B2 & B3 & B4 & B5 & B6).
  - simpl. rewrite Hl. reflexivity.
  - reflexivity.
  - reflexivity.
  - fold s in B1, B2, B3, B4, B5, B6.
    assert (Hup : mouseUp s = handleMouseUp s).
    { unfold mouseUp. rewrite B1. reflexivity. }
    split; [exact B4|]. split; [exact B5|]. split; [exact B6|].
    rewrite Hup. simpl. rewrite B1. simpl.
    split; [reflexivity|]. split; [reflexivity|]. split; [reflexivity|].
    intros x. unfold mouseMove. simpl. rewrite B1. reflexivity.
Qed.

(** A field showing 1, with step 0.1, dragged from 100 over 110 and 90 to
    130. *)
Lemma drag_reports_displacement_witness :
  value (drag (fun r => r) [110; 90; 130] (handleMouseDown 100 (mount 1 0.1)))
  = 1 + (130 - 100) * 0.1 * 0.1.
Proof.
  apply (drag_reports_displacement (fun r => r) (mount 1 0.1) 100 [110; 90; 130]);
    reflexivity.
Defined.

End NumericInputProperties.
